(** * Peloton wire front-end: [src/include/wire/libevent_server.h]

    A shallow embedding of the socket buffers, the libevent thread
    objects and the per-connection [LibeventSocket] wrapper, together
    with a small model of the operating-system and libevent calls the
    header makes ([fcntl], [setsockopt], [event_new], [event_add], ...).

    Conventions.
    - [size_t] and [int] values are integers in [Z]; where the C++ code
      does arithmetic on a [size_t] the wrap-around modulo [2^64] is
      written out ([size_t_wrap]).
    - A pointer is an address in [Z]; [nullptr] is [0].
    - A [uchar] is an integer in [[0,256)]; byte arrays are lists.
    - Calls that touch the process environment run in the state monad
      [M] over [World]. *)

From stdpp Require Import gmap list strings.

Local Open Scope Z_scope.

(** ** Build-time constants (lines 37-39) *)

Definition SOCKET_BUFFER_SIZE : Z := 8192.
Definition QUEUE_SIZE : Z := 100.
Definition MASTER_THREAD_ID : Z := -1.

(** ** Machine-level conventions *)

Definition ptr := Z.
Definition nullptr : ptr := 0.

Definition uchar := Z.

Definition size_t_wrap (z : Z) : Z := z mod 2 ^ 64.
Definition uint32_wrap (z : Z) : Z := z mod 2 ^ 32.

(** ** The process environment *)

(** [open(2)] / [fcntl(2)] status-flag bits, Linux values. *)
Definition O_APPEND   : Z := 1024.
Definition O_NONBLOCK : Z := 2048.
Definition O_ASYNC    : Z := 8192.
Definition O_DIRECT   : Z := 16384.
Definition O_NOATIME  : Z := 262144.

(** The bits [F_SETFL] is able to change; the access mode and the
    creation flags in its argument are ignored. *)
Definition SETFL_MASK : Z :=
  Z.lor O_APPEND (Z.lor O_NONBLOCK (Z.lor O_ASYNC (Z.lor O_DIRECT O_NOATIME))).

Definition EINTR  : Z := 4.
Definition EBADF  : Z := 9.
Definition EAGAIN : Z := 11.
Definition EPIPE  : Z := 32.
Definition ENOTSOCK : Z := 88.
Definition EOPNOTSUPP : Z := 95.
Definition ECONNRESET : Z := 104.

(** What the kernel will answer to the next [write] on a descriptor:
    take up to [n] bytes, or fail with an [errno]. *)
Inductive WriteEvent :=
| WrAccept (n : positive)
| WrFail (errno : Z).

(** What the kernel will answer to the next [read]: some bytes have
    arrived (at least one), the peer has shut down, or an error. *)
Inductive ReadEvent :=
| RdArrive (b : uchar) (bs : list uchar)
| RdEOF
| RdFail (errno : Z).

(** An open file description. [fd_sent] is everything the kernel has
    accepted from [write] so far, in order: the bytes on the wire. *)
Record FileDesc := mkFileDesc {
  fd_status  : Z;
  fd_tcp     : bool;
  fd_nodelay : bool;
  fd_sent    : list uchar;
  fd_wr      : list WriteEvent;
  fd_rd      : list ReadEvent
}.

Definition fd_with_status (s : Z) (f : FileDesc) : FileDesc :=
  mkFileDesc s (fd_tcp f) (fd_nodelay f) (fd_sent f) (fd_wr f) (fd_rd f).
Definition fd_with_nodelay (b : bool) (f : FileDesc) : FileDesc :=
  mkFileDesc (fd_status f) (fd_tcp f) b (fd_sent f) (fd_wr f) (fd_rd f).
Definition fd_after_write (out : list uchar) (wr : list WriteEvent) (f : FileDesc) : FileDesc :=
  mkFileDesc (fd_status f) (fd_tcp f) (fd_nodelay f) (fd_sent f ++ out) wr (fd_rd f).
Definition fd_with_rd (rd : list ReadEvent) (f : FileDesc) : FileDesc :=
  mkFileDesc (fd_status f) (fd_tcp f) (fd_nodelay f) (fd_sent f) (fd_wr f) rd.

(** The two libevent callbacks declared at lines 48 and 51. *)
Inductive Callback :=
| WorkerHandleNewConn
| EventHandler.

(** A libevent [struct event] as [event_new] fills it in. *)
Record Event := mkEvent {
  ev_base     : ptr;
  ev_fd       : Z;
  ev_events   : Z;
  ev_callback : Callback;
  ev_arg      : ptr;
  ev_pending  : bool
}.

Definition ev_with_pending (b : bool) (e : Event) : Event :=
  mkEvent (ev_base e) (ev_fd e) (ev_events e) (ev_callback e) (ev_arg e) b.

(** The environment: the descriptor table, every event allocated so far
    (the handle of the [i]-th is the address [i + 1]) and the error log. *)
Record World := mkWorld {
  w_fds    : gmap Z FileDesc;
  w_events : list Event;
  w_log    : list string
}.

Definition w_with_fds (fds : gmap Z FileDesc) (w : World) : World :=
  mkWorld fds (w_events w) (w_log w).
Definition w_with_events (evs : list Event) (w : World) : World :=
  mkWorld (w_fds w) evs (w_log w).
Definition w_with_log (l : list string) (w : World) : World :=
  mkWorld (w_fds w) (w_events w) l.

(** ** The state monad over the environment *)

Definition M (A : Type) : Type := World -> A * World.

Definition ret {A} (a : A) : M A := fun w => (a, w).
Definition bind {A B} (m : M A) (k : A -> M B) : M B :=
  fun w => let (a, w') := m w in k a w'.

Declare Scope m_scope.
Delimit Scope m_scope with M.
Notation "x <- m ;; k" := (bind m (fun x => k))
  (at level 100, m at next level, right associativity) : m_scope.
Notation "m ;;; k" := (bind m (fun _ => k))
  (at level 100, right associativity) : m_scope.
Local Open Scope m_scope.

Definition newline : string := String (Ascii.ascii_of_N 10) EmptyString.

Definition LOG_ERROR (msg : string) : M unit :=
  fun w => (tt, w_with_log (w_log w ++ [msg]) w).

(** ** System calls *)

(** [fcntl(fd, F_GETFL)]: the status flags, or [-1] on a bad descriptor. *)
Definition fcntl_GETFL (fd : Z) : M Z :=
  fun w => match w_fds w !! fd with
           | Some f => (fd_status f, w)
           | None => (-1, w)
           end.

(** [fcntl(fd, F_SETFL, arg)]: replaces the changeable status bits by
    those of [arg]; [-1] on a bad descriptor. This is the call as
    sockets, pipes and regular files answer it; a descriptor opened with
    [O_PATH], which the kernel refuses, is not among the descriptors of
    this table. *)
Definition fcntl_SETFL (fd : Z) (arg : Z) : M Z :=
  fun w => match w_fds w !! fd with
           | Some f =>
               let s := Z.lor (Z.land (fd_status f) (Z.lnot SETFL_MASK))
                              (Z.land arg SETFL_MASK) in
               (0, w_with_fds (<[fd := fd_with_status s f]> (w_fds w)) w)
           | None => (-1, w)
           end.

(** [setsockopt(fd, IPPROTO_TCP, TCP_NODELAY, &v, sizeof v)]: only a TCP
    socket has the option. *)
Definition setsockopt_TCP_NODELAY (fd : Z) (v : Z) : M Z :=
  fun w => match w_fds w !! fd with
           | Some f =>
               if fd_tcp f
               then (0, w_with_fds (<[fd := fd_with_nodelay (negb (v =? 0)) f]> (w_fds w)) w)
               else (-1, w)
           | None => (-1, w)
           end.

(** ** libevent *)

Definition event_handle (i : nat) : ptr := Z.of_nat i + 1.
Definition event_index (h : ptr) : option nat :=
  if 1 <=? h then Some (Z.to_nat (h - 1)) else None.

Definition lookup_event (h : ptr) (w : World) : option Event :=
  i ← event_index h; w_events w !! i.

(** [event_new(base, fd, events, cb, arg)]: allocates a new, non-pending
    event and returns its handle. *)
Definition event_new (base : ptr) (fd : Z) (events : Z) (cb : Callback) (arg : ptr) : M ptr :=
  fun w => (event_handle (length (w_events w)),
            w_with_events (w_events w ++ [mkEvent base fd events cb arg false]) w).

Definition set_pending (b : bool) (h : ptr) : M Z :=
  fun w => match event_index h with
           | Some i =>
               match w_events w !! i with
               | Some e => (0, w_with_events (<[i := ev_with_pending b e]> (w_events w)) w)
               | None => (-1, w)
               end
           | None => (-1, w)
           end.

(** [event_add(ev, timeout)]: makes the event pending in its base. The
    header only ever passes a null timeout. This is the call for an
    event on a live descriptor; a backend that turns the descriptor down
    (a closed one, under epoll) is not modelled. *)
Definition event_add (h : ptr) (timeout : ptr) : M Z := set_pending true h.

(** [event_del(ev)]: makes the event non-pending. *)
Definition event_del (h : ptr) : M Z := set_pending false h.

(** ** Helpers (lines 63-75) *)

Definition SetNonBlocking (fd : Z) : M unit :=
  flags <- fcntl_GETFL fd ;;
  let flags := Z.lor flags O_NONBLOCK in
  r <- fcntl_SETFL fd flags ;;
  if r <? 0 then LOG_ERROR "Failed to set non-blocking socket" else ret tt.

Definition SetTCPNoDelay (fd : Z) : M unit :=
  let one := 1 in
  setsockopt_TCP_NODELAY fd one ;;; ret tt.

(** ** [struct Buffer] (lines 78-91) *)

Record Buffer := mkBuffer {
  buf_ptr  : Z;
  buf_size : Z;
  buf      : list uchar
}.

(** The constructor zeroes the two counters and leaves the array as the
    memory it was built in happened to be ([raw]). *)
Definition Buffer_new (raw : list uchar) : Buffer := mkBuffer 0 0 raw.

Definition Buffer_Reset (b : Buffer) : Buffer := mkBuffer 0 0 (buf b).

Definition GetMaxSize (b : Buffer) : Z := SOCKET_BUFFER_SIZE.

(** ** [struct NewConnQueueItem] (lines 93-97) *)

Record NewConnQueueItem := mkNewConnQueueItem {
  new_conn_fd : Z;
  item_event_flags : Z
}.

(** ** [class LibeventThread] (lines 99-120) *)

Record LibeventThread := mkLibeventThread {
  thread_id_ : Z;
  libevent_base_ : ptr
}.

(** A constructor either returns the object or ends the process. *)
Inductive Completion (A : Type) :=
| Returned (a : A)
| ProcessExit (code : Z).
Arguments Returned {A} a.
Arguments ProcessExit {A} code.

Definition LibeventThread_new (thread_id : Z) (libevent_base : ptr)
  : M (Completion LibeventThread) :=
  let this := mkLibeventThread thread_id libevent_base in
  if decide (libevent_base_ this = nullptr)
  then LOG_ERROR ("Can't allocate event base" +:+ newline) ;;; ret (ProcessExit 1)
  else ret (Returned this).

Definition GetEventBase (t : LibeventThread) : ptr := libevent_base_ t.

(** ** [class LibeventSocket] (lines 159-219) *)

(** Modelled from the spec: [PacketManager] is declared in [wire/wire.h],
    which is not part of this header. The spec treats it as an external
    protocol handler holding session-level protocol state only. *)
Record PacketManager := mkPacketManager {
  pm_session : list Z
}.

Record LibeventSocket := mkLibeventSocket {
  sock_fd : Z;
  is_disconnected : bool;
  event : ptr;
  event_flags : Z;
  rbuf : Buffer;
  wbuf : Buffer;
  thread : LibeventThread;
  pkt_manager : option PacketManager
}.

Definition set_is_disconnected (b : bool) (c : LibeventSocket) : LibeventSocket :=
  mkLibeventSocket (sock_fd c) b (event c) (event_flags c) (rbuf c) (wbuf c)
                   (thread c) (pkt_manager c).
Definition set_event (e : ptr) (c : LibeventSocket) : LibeventSocket :=
  mkLibeventSocket (sock_fd c) (is_disconnected c) e (event_flags c) (rbuf c) (wbuf c)
                   (thread c) (pkt_manager c).
Definition set_event_flags (fl : Z) (c : LibeventSocket) : LibeventSocket :=
  mkLibeventSocket (sock_fd c) (is_disconnected c) (event c) fl (rbuf c) (wbuf c)
                   (thread c) (pkt_manager c).
Definition set_rbuf (b : Buffer) (c : LibeventSocket) : LibeventSocket :=
  mkLibeventSocket (sock_fd c) (is_disconnected c) (event c) (event_flags c) b (wbuf c)
                   (thread c) (pkt_manager c).
Definition set_wbuf (b : Buffer) (c : LibeventSocket) : LibeventSocket :=
  mkLibeventSocket (sock_fd c) (is_disconnected c) (event c) (event_flags c) (rbuf c) b
                   (thread c) (pkt_manager c).
Definition set_thread (t : LibeventThread) (c : LibeventSocket) : LibeventSocket :=
  mkLibeventSocket (sock_fd c) (is_disconnected c) (event c) (event_flags c) (rbuf c) (wbuf c)
                   t (pkt_manager c).
Definition set_pkt_manager (p : option PacketManager) (c : LibeventSocket) : LibeventSocket :=
  mkLibeventSocket (sock_fd c) (is_disconnected c) (event c) (event_flags c) (rbuf c) (wbuf c)
                   (thread c) p.

(** [Init] (lines 176-186). [this] is the address of the object, which
    the callback registration captures; [thread] is a reference to a
    constructed [LibeventThread]. *)
Definition Init (this : ptr) (event_flags : Z) (thread : LibeventThread)
    (c : LibeventSocket) : M LibeventSocket :=
  SetNonBlocking (sock_fd c) ;;;
  SetTCPNoDelay (sock_fd c) ;;;
  let c := set_is_disconnected false c in
  let c := set_event_flags event_flags c in
  let c := set_thread thread c in
  ev <- event_new (GetEventBase thread) (sock_fd c) event_flags EventHandler this ;;
  let c := set_event ev c in
  event_add (event c) nullptr ;;;
  ret c.

(** What the members the constructor does not initialise hold before
    [Init] runs: whatever the memory of the new object contained. *)
Record RawMemory := mkRawMemory {
  raw_is_disconnected : bool;
  raw_event : ptr;
  raw_rbuf : list uchar;
  raw_wbuf : list uchar
}.

(** The constructor (lines 189-193). *)
Definition LibeventSocket_new (this : ptr) (raw : RawMemory)
    (sock_fd : Z) (event_flags : Z) (thread : LibeventThread) : M LibeventSocket :=
  let c := mkLibeventSocket sock_fd (raw_is_disconnected raw) (raw_event raw) event_flags
             (Buffer_new (raw_rbuf raw)) (Buffer_new (raw_wbuf raw)) thread None in
  Init this event_flags thread c.

(** [Reset] (lines 212-218). *)
Definition Reset (this : ptr) (event_flags : Z) (thread : LibeventThread)
    (c : LibeventSocket) : M LibeventSocket :=
  let c := set_is_disconnected false c in
  let c := set_rbuf (Buffer_Reset (rbuf c)) c in
  let c := set_wbuf (Buffer_Reset (wbuf c)) c in
  let c := set_pkt_manager None c in
  Init this event_flags thread c.

(** A connection that is reset once for each pair of [args], in order. *)
Fixpoint Resets (this : ptr) (args : list (Z * LibeventThread))
    (c : LibeventSocket) : M LibeventSocket :=
  match args with
  | [] => ret c
  | (fl, t) :: rest => c' <- Reset this fl t c ;; Resets this rest c'
  end.

(** ** Buffer operations of the design (spec section 4.1) *)

(** Modelled from the spec: [SockBuf] is declared in [wire/wire.h]; the
    spec gives it as a fixed-size byte array of [SOCKET_BUFFER_SIZE]
    cells. [SockBuf_ok] says that a list stands for such an array. *)
Definition SockBuf_ok (l : list uchar) : Prop :=
  Z.of_nat (length l) = SOCKET_BUFFER_SIZE.

(** Modelled from the spec: the header gives [Buffer] no member besides
    [Reset] and [GetMaxSize]. Section 4.1: "remaining: filled - cursor",
    on [size_t] fields. *)
Definition remaining (b : Buffer) : Z := size_t_wrap (buf_size b - buf_ptr b).

(** Modelled from the spec: section 4.1, "consume(n): advance cursor by
    n; requires n <= remaining". The requires-clause is [consume_pre]. *)
Definition consume (n : Z) (b : Buffer) : Buffer :=
  mkBuffer (size_t_wrap (buf_ptr b + n)) (buf_size b) (buf b).

(** Modelled from the spec: section 4.1, "append(src, n): copy n bytes
    into [filled, filled+n); requires filled + n <= capacity; increases
    filled". The requires-clause is [append_pre]; it keeps the copy
    inside the array. *)
Definition append (src : list uchar) (n : Z) (b : Buffer) : Buffer :=
  let off := Z.to_nat (buf_size b) in
  let bytes := take (Z.to_nat n) src in
  mkBuffer (buf_ptr b) (size_t_wrap (buf_size b + n))
           (take off (buf b) ++ bytes ++ drop (off + length bytes) (buf b)).

Definition consume_pre (n : Z) (b : Buffer) : Prop := 0 <= n <= remaining b.
Definition append_pre (n : Z) (b : Buffer) : Prop :=
  0 <= n /\ buf_size b + n <= SOCKET_BUFFER_SIZE.

(** The bytes between the cursor and the filled length. *)
Definition pending (b : Buffer) : list uchar :=
  take (Z.to_nat (buf_size b - buf_ptr b)) (drop (Z.to_nat (buf_ptr b)) (buf b)).

(** The invariant of section 3. *)
Definition Buffer_inv (b : Buffer) : Prop :=
  0 <= buf_ptr b /\ buf_ptr b <= buf_size b /\ buf_size b <= SOCKET_BUFFER_SIZE.

Definition Buffer_wf (b : Buffer) : Prop := Buffer_inv b /\ SockBuf_ok (buf b).

Inductive BufferOp :=
| OpReset
| OpConsume (n : Z)
| OpAppend (src : list uchar) (n : Z).

Definition run_BufferOp (op : BufferOp) (b : Buffer) : Buffer :=
  match op with
  | OpReset => Buffer_Reset b
  | OpConsume n => consume n b
  | OpAppend src n => append src n b
  end.

Definition BufferOp_pre (op : BufferOp) (b : Buffer) : Prop :=
  match op with
  | OpReset => True
  | OpConsume n => consume_pre n b
  | OpAppend src n => append_pre n b
  end.

(** The buffers a program can hold: a constructed one, and whatever an
    operation called within its contract makes of those. *)
Inductive Buffer_reachable : Buffer -> Prop :=
| reach_new raw : Buffer_reachable (Buffer_new raw)
| reach_op op b :
    Buffer_reachable b -> BufferOp_pre op b -> Buffer_reachable (run_BufferOp op b).

(** ** Socket I/O system calls *)

Inductive WriteResult :=
| Transferred (n : Z)
| WriteFailed (errno : Z).

Inductive ReadResult :=
| Received (data : list uchar)
| ReadFailed (errno : Z).

(** Everything written to [fd] so far. *)
Definition sent (fd : Z) (w : World) : list uchar :=
  match w_fds w !! fd with
  | Some f => fd_sent f
  | None => []
  end.

(** [write(fd, data, |data|)] on a non-blocking descriptor. With nothing
    scheduled the kernel has no room: [EAGAIN]. *)
Definition sys_write (fd : Z) (data : list uchar) : M WriteResult :=
  fun w => match w_fds w !! fd with
           | None => (WriteFailed EBADF, w)
           | Some f =>
               match fd_wr f with
               | [] => (WriteFailed EAGAIN, w)
               | WrAccept n :: rest =>
                   let k := Z.min (Z.pos n) (Z.of_nat (length data)) in
                   (Transferred k,
                    w_with_fds (<[fd := fd_after_write (take (Z.to_nat k) data) rest f]> (w_fds w)) w)
               | WrFail e :: rest =>
                   (WriteFailed e,
                    w_with_fds (<[fd := fd_after_write [] rest f]> (w_fds w)) w)
               end
           end.

(** [read(fd, _, count)] on a non-blocking descriptor; [Received []] is
    the return value [0]. *)
Definition sys_read (fd : Z) (count : Z) : M ReadResult :=
  fun w => match w_fds w !! fd with
           | None => (ReadFailed EBADF, w)
           | Some f =>
               match fd_rd f with
               | [] => (ReadFailed EAGAIN, w)
               | RdArrive b bs :: rest =>
                   let data := take (Z.to_nat count) (b :: bs) in
                   let rd := match drop (Z.to_nat count) (b :: bs) with
                             | [] => rest
                             | b' :: bs' => RdArrive b' bs' :: rest
                             end in
                   (Received data, w_with_fds (<[fd := fd_with_rd rd f]> (w_fds w)) w)
               | RdEOF :: _ => (Received [], w)
               | RdFail e :: rest =>
                   (ReadFailed e, w_with_fds (<[fd := fd_with_rd rest f]> (w_fds w)) w)
               end
           end.

(** [close(fd)]. *)
Definition sys_close (fd : Z) : M Z :=
  fun w => match w_fds w !! fd with
           | None => (-1, w)
           | Some _ => (0, w_with_fds (delete fd (w_fds w)) w)
           end.

(** ** Wire framing (spec section 6) *)

(** Modelled from the spec: section 6, "length: u32 big-endian". A
    32-bit value in network byte order. *)
Definition be32 (x : Z) : list uchar :=
  [ Z.land (Z.shiftr x 24) 255; Z.land (Z.shiftr x 16) 255;
    Z.land (Z.shiftr x 8) 255; Z.land x 255 ].

(** Modelled from the spec: section 6, the header of an outbound packet,
    "[type: u8][length: u32 big-endian including the four length bytes
    and the payload]", for a payload of [len] bytes. *)
Definition packet_header (type : uchar) (len : Z) : list uchar :=
  type :: be32 (uint32_wrap (len + 4)).

(** Modelled from the spec: section 6, "each outbound packet is
    [type: u8][length: u32 big-endian including the four length bytes
    and the payload][payload bytes]". *)
Definition frame (type : uchar) (payload : list uchar) : list uchar :=
  packet_header type (Z.of_nat (length payload)) ++ payload.

(** Modelled from the spec: section 4.2, "the payload is written in
    chunks". The payload cut into consecutive pieces of at most [k]
    bytes. *)
Fixpoint chunks (fuel : nat) (k : nat) (l : list uchar) : list (list uchar) :=
  match fuel with
  | O => []
  | S fuel' =>
      match l with
      | [] => []
      | _ :: _ => take k l :: chunks fuel' k (drop k l)
      end
  end.

(** ** Connection operations declared in the header, bodies elsewhere *)

(** Modelled from the spec: [FlushWriteBuffer] is only declared (line
    205). Section 4.2: "writes all buffered bytes to the socket, looping
    over partial writes. On EAGAIN it returns without clearing the
    buffer ... On hard error, sets disconnected and returns failure."
    The declared result is [bool]: [true] when everything was written. *)
Fixpoint flush_loop (fuel : nat) (c : LibeventSocket) : M (bool * LibeventSocket) :=
  if buf_ptr (wbuf c) <? buf_size (wbuf c) then
    match fuel with
    | O => ret (false, c)
    | S fuel' =>
        r <- sys_write (sock_fd c) (pending (wbuf c)) ;;
        match r with
        | Transferred n => flush_loop fuel' (set_wbuf (consume n (wbuf c)) c)
        | WriteFailed e =>
            if decide (e = EAGAIN) then ret (false, c)
            else ret (false, set_is_disconnected true c)
        end
    end
  else ret (true, set_wbuf (Buffer_Reset (wbuf c)) c).

(** Modelled from the spec: [FlushWriteBuffer] (line 205) is the loop
    above, with a round for every buffered byte; no round is ever
    missing, see [flush_loop_fuel]. *)
Definition FlushWriteBuffer (c : LibeventSocket) : M (bool * LibeventSocket) :=
  flush_loop (Z.to_nat (remaining (wbuf c))) c.

(** Modelled from the spec: section 4.2, "If the packet does not fit in
    the remaining capacity, the buffer is flushed first". One piece (a
    whole packet, a header or a chunk) into the write buffer. *)
Definition buffer_packet (pkt : list uchar) (c : LibeventSocket)
  : M (bool * LibeventSocket) :=
  let n := Z.of_nat (length pkt) in
  if n <=? GetMaxSize (wbuf c) - buf_size (wbuf c)
  then ret (true, set_wbuf (append pkt n (wbuf c)) c)
  else
    r <- FlushWriteBuffer c ;;
    let (ok, c) := r in
    if ok then ret (true, set_wbuf (append pkt n (wbuf c)) c)
    else ret (false, c).

(** Modelled from the spec: section 4.2, "written in chunks". The pieces
    of one packet go into the write buffer one after the other, each
    behind a flush when it does not fit. *)
Fixpoint buffer_chunks (cs : list (list uchar)) (c : LibeventSocket)
  : M (bool * LibeventSocket) :=
  match cs with
  | [] => ret (true, c)
  | ch :: rest =>
      r <- buffer_packet ch c ;;
      let (ok, c) := r in
      if ok then buffer_chunks rest c else ret (false, c)
  end.

(** Modelled from the spec: [BufferWriteBytes] is only declared (line
    200). Section 4.2: "appends one wire packet to wbuf: a one-byte type
    tag, a fixed-width big-endian length field covering the length
    prefix plus payload, then the payload. If the packet does not fit in
    the remaining capacity, the buffer is flushed first; if still too
    large, the payload is written in chunks, each chunk preceded by its
    own header as the protocol permits". The protocol of section 6 has
    one header to a packet, and section 8 wants the bytes of a packet
    larger than the buffer "still contiguous and correctly framed": so
    the header goes out once, and the chunks of the payload follow it
    through the buffer with a flush between them. The payload is the
    first [len] bytes of [pkt_buf]; a chunk is as long as fits the
    buffer behind the header. *)
Definition BufferWriteBytes (pkt_buf : list uchar) (len : Z) (type : uchar)
    (c : LibeventSocket) : M (bool * LibeventSocket) :=
  let payload := take (Z.to_nat len) pkt_buf in
  if 5 + len <=? GetMaxSize (wbuf c)
  then buffer_packet (frame type payload) c
  else
    r <- FlushWriteBuffer c ;;
    let (ok, c) := r in
    if ok
    then buffer_chunks
           (packet_header type (Z.of_nat (length payload))
            :: chunks (length payload) (Z.to_nat (GetMaxSize (wbuf c) - 5)) payload) c
    else ret (false, c).

(** Modelled from the spec: [RefillReadBuffer] is only declared (line
    174). Section 4.2: "issues a non-blocking read into rbuf. On success
    returns true and has at least one new byte readable. Returns false
    on EOF, RST, or any error other than EAGAIN/EWOULDBLOCK; in that
    case it sets disconnected = true. On EAGAIN ... returns false
    without setting the disconnect flag". The read asks for the free
    room behind the filled length. *)
Definition RefillReadBuffer (c : LibeventSocket) : M (bool * LibeventSocket) :=
  r <- sys_read (sock_fd c) (GetMaxSize (rbuf c) - buf_size (rbuf c)) ;;
  match r with
  | Received [] => ret (false, set_is_disconnected true c)
  | Received data =>
      ret (true, set_rbuf (append data (Z.of_nat (length data)) (rbuf c)) c)
  | ReadFailed e =>
      if decide (e = EAGAIN) then ret (false, c)
      else ret (false, set_is_disconnected true c)
  end.

(** Modelled from the spec: [ReadBytes] is only declared (line 197).
    Section 4.2: "ensures n bytes are available in rbuf (refilling as
    needed, possibly across multiple system calls), then copies them
    into out and advances the cursor. Fails iff a refill fails." The
    result carries the bytes copied out. *)
Fixpoint read_loop (fuel : nat) (bytes : Z) (c : LibeventSocket)
  : M (bool * list uchar * LibeventSocket) :=
  if bytes <=? remaining (rbuf c)
  then ret (true, take (Z.to_nat bytes) (pending (rbuf c)),
            set_rbuf (consume bytes (rbuf c)) c)
  else
    match fuel with
    | O => ret (false, [], c)
    | S fuel' =>
        r <- RefillReadBuffer c ;;
        let (ok, c) := r in
        if ok then read_loop fuel' bytes c else ret (false, [], c)
    end.

(** Modelled from the spec: [ReadBytes] (line 197) is the loop above;
    [bytes] refills always suffice, as each brings at least one byte,
    see [read_loop_fuel]. *)
Definition ReadBytes (bytes : Z) (c : LibeventSocket)
  : M (bool * list uchar * LibeventSocket) :=
  read_loop (Z.to_nat bytes) bytes c.

(** Modelled from the spec: [CloseSocket] is only declared (line 207).
    Section 4.2: "closes the fd, removes the reactor registration, sets
    disconnected. Does not free the Connection". *)
Definition CloseSocket (c : LibeventSocket) : M LibeventSocket :=
  sys_close (sock_fd c) ;;;
  event_del (event c) ;;;
  ret (set_is_disconnected true c).

(** The operations of a connection, as one type. *)
Inductive ConnOp :=
| DoRefillReadBuffer
| DoReadBytes (bytes : Z)
| DoBufferWriteBytes (pkt_buf : list uchar) (len : Z) (type : uchar)
| DoFlushWriteBuffer
| DoCloseSocket
| DoReset (this : ptr) (event_flags : Z) (thread : LibeventThread).

Definition run_ConnOp (op : ConnOp) (c : LibeventSocket) : M LibeventSocket :=
  match op with
  | DoRefillReadBuffer => r <- RefillReadBuffer c ;; ret (snd r)
  | DoReadBytes n => r <- ReadBytes n c ;; ret (snd r)
  | DoBufferWriteBytes p len ty => r <- BufferWriteBytes p len ty c ;; ret (snd r)
  | DoFlushWriteBuffer => r <- FlushWriteBuffer c ;; ret (snd r)
  | DoCloseSocket => CloseSocket c
  | DoReset this fl t => Reset this fl t c
  end.

Definition is_DoReset (op : ConnOp) : bool :=
  match op with
  | DoReset _ _ _ => true
  | _ => false
  end.

(** The value of [is_disconnected] before the first operation and after
    each one of [ops]. *)
Fixpoint disconnect_trace (ops : list ConnOp) (c : LibeventSocket) (w : World)
  : list bool :=
  is_disconnected c ::
  match ops with
  | [] => []
  | op :: rest => let (c', w') := run_ConnOp op c w in disconnect_trace rest c' w'
  end.

(** ** The acceptor and its workers (lines 122-153) *)

(** [class LibeventWorkerThread]; [worker_base] is the [LibeventThread]
    it derives from, and the queue holds its items oldest first. *)
Record LibeventWorkerThread := mkLibeventWorkerThread {
  worker_base : LibeventThread;
  new_conn_event_ : ptr;
  new_conn_receive_fd_ : Z;
  new_conn_send_fd : Z;
  new_conn_queue : list NewConnQueueItem
}.

(** Modelled from the spec: [LockFreeQueue] is declared in
    [container/lock_free_queue.h]; section 5 gives the hand-off queue as
    FIFO. The list holds the items in the order they were pushed; what
    a full queue does is left to the implementer there ("spin-retry or
    temporarily stop accepting"), so a push always lands. *)
Definition Enqueue (item : NewConnQueueItem) (t : LibeventWorkerThread)
  : LibeventWorkerThread :=
  mkLibeventWorkerThread (worker_base t) (new_conn_event_ t) (new_conn_receive_fd_ t)
    (new_conn_send_fd t) (new_conn_queue t ++ [item]).

(** Modelled from the spec: the class declares [num_threads_] and
    [GetWorkerThreads()] only; the vector of worker handles and "an
    incrementing dispatch counter" are the acceptor's remaining state in
    section 3. *)
Record LibeventMasterThread := mkLibeventMasterThread {
  master_base : LibeventThread;
  num_threads_ : Z;
  worker_threads : list LibeventWorkerThread;
  counter : Z
}.

(** Modelled from the spec: section 4.5, "writes one byte to its
    wake-pipe. The write is best-effort; if the pipe is full, it
    retries". One byte down a wake pipe, tried again while the pipe is
    full and the kernel still has an answer scheduled for the
    descriptor. *)
Fixpoint write_wake (fuel : nat) (fd : Z) : M unit :=
  match fuel with
  | O => ret tt
  | S fuel' =>
      r <- sys_write fd [99] ;;
      match r with
      | Transferred _ => ret tt
      | WriteFailed e => if decide (e = EAGAIN) then write_wake fuel' fd else ret tt
      end
  end.

(** Modelled from the spec: the wake-up of section 4.5, with as many
    tries as the kernel has answers scheduled, and one more. *)
Definition notify (fd : Z) : M unit :=
  fun w => write_wake (S (length (from_option fd_wr [] (w_fds w !! fd)))) fd w.

(** Modelled from the spec: [DispatchConnection] is only declared (line
    148). Section 4.5: "computes worker_index = counter++ % num_workers,
    pushes {fd, flags} onto that worker's queue, writes one byte to its
    wake-pipe. The write is best-effort; if the pipe is full, it
    retries". [%] is C++ remainder, [Z.rem]. *)
Definition DispatchConnection (new_conn_fd : Z) (event_flags : Z)
    (m : LibeventMasterThread) : M LibeventMasterThread :=
  let worker_index := Z.rem (counter m) (num_threads_ m) in
  let m := mkLibeventMasterThread (master_base m) (num_threads_ m)
             (worker_threads m) (counter m + 1) in
  match worker_threads m !! Z.to_nat worker_index with
  | Some t =>
      let t := Enqueue (mkNewConnQueueItem new_conn_fd event_flags) t in
      notify (new_conn_send_fd t) ;;;
      ret (mkLibeventMasterThread (master_base m) (num_threads_ m)
             (<[Z.to_nat worker_index := t]> (worker_threads m)) (counter m))
  | None => ret m
  end.

(** The accept loop's calls, one per accepted descriptor, in order. *)
Fixpoint dispatch_all (items : list NewConnQueueItem) (m : LibeventMasterThread)
  : M LibeventMasterThread :=
  match items with
  | [] => ret m
  | it :: rest =>
      m' <- DispatchConnection (new_conn_fd it) (item_event_flags it) m ;;
      dispatch_all rest m'
  end.

(** The queue of worker [i], empty for an index that names no worker. *)
Definition queue_of (i : nat) (m : LibeventMasterThread) : list NewConnQueueItem :=
  from_option new_conn_queue [] (worker_threads m !! i).

(** A fresh worker whose pipe is the pair [(rfd, sfd)]. *)
Definition fresh_worker (id : Z) (base : ptr) (rfd sfd : Z) : LibeventWorkerThread :=
  mkLibeventWorkerThread (mkLibeventThread id base) nullptr rfd sfd [].

(** An acceptor that has dispatched nothing yet. *)
Definition idle_master (m : LibeventMasterThread) : Prop :=
  counter m = 0 /\
  Z.of_nat (length (worker_threads m)) = num_threads_ m /\
  Forall (fun t => new_conn_queue t = []) (worker_threads m).

(** ** Observations used in the statements *)

(** The descriptor table after the two socket-option helpers. *)
Definition prepared_fds (fd : Z) (w : World) : gmap Z FileDesc :=
  w_fds (snd (SetTCPNoDelay fd (snd (SetNonBlocking fd w)))).

Definition prepared_log (fd : Z) (w : World) : list string :=
  w_log (snd (SetTCPNoDelay fd (snd (SetNonBlocking fd w)))).

(** [O_NONBLOCK] is bit 11 of the status flags. *)
Definition is_nonblocking (f : FileDesc) : bool :=
  Z.testbit (fd_status f) (Z.log2 O_NONBLOCK).

(** How many events have been allocated for descriptor [fd]. *)
Definition created_for (fd : Z) (w : World) : nat :=
  length (filter (fun e => ev_fd e = fd) (w_events w)).

(** A descriptor as [SetNonBlocking] followed by [SetTCPNoDelay] leaves
    it: [O_NONBLOCK] added to the status flags, and [TCP_NODELAY] on
    when it is a TCP socket. *)
Definition prepared_file (f : FileDesc) : FileDesc :=
  mkFileDesc (Z.lor (fd_status f) O_NONBLOCK) (fd_tcp f)
             (if fd_tcp f then true else fd_nodelay f)
             (fd_sent f) (fd_wr f) (fd_rd f).

(** The event one call of [Init] for [(flags, thread)] registers. *)
Definition registration (this : ptr) (fd : Z) (a : Z * LibeventThread) : Event :=
  mkEvent (GetEventBase (snd a)) fd (fst a) EventHandler this true.

(** What a descriptor carries besides its status flags and options. *)
Definition fd_traffic (f : FileDesc) : bool * list uchar * list WriteEvent * list ReadEvent :=
  (fd_tcp f, fd_sent f, fd_wr f, fd_rd f).

(** An operation keeps the latch when it cannot take [is_disconnected]
    from true back to false. *)
Definition keeps_latch (c c' : LibeventSocket) : Prop :=
  is_disconnected c = true -> is_disconnected c' = true.

(** Everything the connection has committed to its peer: what is on the
    wire followed by what is still in the write buffer. *)
Definition stream (c : LibeventSocket) (w : World) : list uchar :=
  sent (sock_fd c) w ++ pending (wbuf c).

(** Both buffers of a connection are well-formed. *)
Definition buffers_wf (c : LibeventSocket) : Prop :=
  Buffer_wf (rbuf c) /\ Buffer_wf (wbuf c).

(** The [size_t] argument of [ReadBytes] is not negative. *)
Definition ConnOp_args_ok (op : ConnOp) : Prop :=
  match op with
  | DoReadBytes bytes => 0 <= bytes
  | _ => True
  end.

(** ** A small concrete environment *)

(** Descriptor 7 is an open TCP socket whose kernel buffer will take 3
    bytes on the next write and 100 on the one after. *)
Definition demo_file : FileDesc :=
  mkFileDesc 2 true false [] [WrAccept 3; WrAccept 100] [].

Definition demo_world : World := mkWorld {[ 7 := demo_file ]} [] [].

(** The same, with a kernel that takes a whole buffer at a time. *)
Definition roomy_world : World :=
  mkWorld {[ 7 := mkFileDesc 2 true false [] [WrAccept 8192; WrAccept 8192] [] ]} [] [].

(** A payload one byte longer than fits the buffer behind the header. *)
Definition big_payload : list uchar := replicate (Z.to_nat (SOCKET_BUFFER_SIZE - 4)) 0.

Definition hello : list uchar := [104; 101; 108; 108; 111].

(** An idle acceptor with two workers, and four accepted descriptors. *)
Definition demo_master : LibeventMasterThread :=
  mkLibeventMasterThread (mkLibeventThread MASTER_THREAD_ID 4096) 2
    [fresh_worker 0 8192 20 21; fresh_worker 1 12288 22 23] 0.

Definition demo_accepts : list NewConnQueueItem :=
  [mkNewConnQueueItem 10 2; mkNewConnQueueItem 11 2;
   mkNewConnQueueItem 12 2; mkNewConnQueueItem 13 2].

Definition demo_thread : LibeventThread := mkLibeventThread 0 4096.

Definition zeroed_array : list uchar := replicate (Z.to_nat SOCKET_BUFFER_SIZE) 0.

Definition demo_raw : RawMemory := mkRawMemory true 0 zeroed_array zeroed_array.

Definition demo_conn : LibeventSocket :=
  mkLibeventSocket 7 false 1 2 (Buffer_new zeroed_array) (Buffer_new zeroed_array)
    demo_thread None.

(** A connection object whose descriptor, 9, is not open. *)
Definition stray_conn : LibeventSocket :=
  mkLibeventSocket 9 true 0 0 (Buffer_new zeroed_array) (Buffer_new zeroed_array)
    demo_thread None.

(** * Properties *)

(** ** The environment calls made by [Init] *)

Lemma event_index_handle (i : nat) : event_index (event_handle i) = Some i.
Proof.
  unfold event_index, event_handle.
  destruct (Z.leb_spec 1 (Z.of_nat i + 1)) as [_|Hlt]; [|lia].
  f_equal. lia.
Qed.

Lemma SetNonBlocking_events fd w :
  w_events (snd (SetNonBlocking fd w)) = w_events w.
Proof.
  unfold SetNonBlocking, bind, fcntl_GETFL, fcntl_SETFL, LOG_ERROR, ret.
  destruct (w_fds w !! fd) eqn:E; cbn; rewrite ?E; reflexivity.
Qed.

Lemma SetTCPNoDelay_events fd w :
  w_events (snd (SetTCPNoDelay fd w)) = w_events w.
Proof.
  unfold SetTCPNoDelay, bind, setsockopt_TCP_NODELAY, ret.
  destruct (w_fds w !! fd) as [f|]; [destruct (fd_tcp f)|]; reflexivity.
Qed.

(** [Init], computed once and for all. *)
Lemma Init_eq this fl t c w :
  Init this fl t c w =
  (mkLibeventSocket (sock_fd c) false (event_handle (length (w_events w))) fl
     (rbuf c) (wbuf c) t (pkt_manager c),
   mkWorld (prepared_fds (sock_fd c) w)
     (w_events w ++ [mkEvent (GetEventBase t) (sock_fd c) fl EventHandler this true])
     (prepared_log (sock_fd c) w)).
Proof.
  unfold Init, prepared_fds, prepared_log.
  unfold bind at 1.
  destruct (SetNonBlocking (sock_fd c) w) as [[] w1] eqn:E1.
  unfold bind at 1.
  destruct (SetTCPNoDelay (sock_fd c) w1) as [[] w2] eqn:E2.
  assert (Hev : w_events w2 = w_events w).
  { replace w2 with (snd (SetTCPNoDelay (sock_fd c) w1)) by (rewrite E2; reflexivity).
    rewrite SetTCPNoDelay_events.
    replace w1 with (snd (SetNonBlocking (sock_fd c) w)) by (rewrite E1; reflexivity).
    apply SetNonBlocking_events. }
  cbn [snd].
  unfold bind, event_new, event_add, set_pending, ret.
  cbn [sock_fd event set_event set_thread set_event_flags set_is_disconnected
       is_disconnected event_flags rbuf wbuf thread pkt_manager w_events w_with_events
       w_fds w_log].
  rewrite event_index_handle.
  rewrite list_lookup_middle by reflexivity.
  rewrite Hev.
  unfold w_with_events. cbn [w_events w_fds w_log].
  f_equal. f_equal.
  - rewrite E2. reflexivity.
  - rewrite insert_app_r_alt by lia.
    rewrite Nat.sub_diag. reflexivity.
  - rewrite E2. reflexivity.
Qed.

Lemma Reset_eq this fl t c w :
  Reset this fl t c w =
  (mkLibeventSocket (sock_fd c) false (event_handle (length (w_events w))) fl
     (Buffer_Reset (rbuf c)) (Buffer_Reset (wbuf c)) t None,
   mkWorld (prepared_fds (sock_fd c) w)
     (w_events w ++ [mkEvent (GetEventBase t) (sock_fd c) fl EventHandler this true])
     (prepared_log (sock_fd c) w)).
Proof. unfold Reset. rewrite Init_eq. reflexivity. Qed.

Lemma LibeventSocket_new_eq this raw fd fl t w :
  LibeventSocket_new this raw fd fl t w =
  (mkLibeventSocket fd false (event_handle (length (w_events w))) fl
     (Buffer_new (raw_rbuf raw)) (Buffer_new (raw_wbuf raw)) t None,
   mkWorld (prepared_fds fd w)
     (w_events w ++ [mkEvent (GetEventBase t) fd fl EventHandler this true])
     (prepared_log fd w)).
Proof. unfold LibeventSocket_new. rewrite Init_eq. reflexivity. Qed.

Lemma lookup_event_last (w : World) (evs : list Event) (e : Event) fds lg :
  lookup_event (event_handle (length evs)) (mkWorld fds (evs ++ [e]) lg) = Some e.
Proof.
  unfold lookup_event. rewrite event_index_handle. cbn.
  apply list_lookup_middle. reflexivity.
Qed.

Lemma lookup_event_fresh (w : World) :
  lookup_event (event_handle (length (w_events w))) w = None.
Proof.
  unfold lookup_event. rewrite event_index_handle. cbn.
  apply lookup_ge_None. lia.
Qed.

Lemma prepared_fds_open fd w f :
  w_fds w !! fd = Some f -> fd_tcp f = true ->
  prepared_fds fd w !! fd =
  Some (mkFileDesc
          (Z.lor (Z.land (fd_status f) (Z.lnot SETFL_MASK))
                 (Z.land (Z.lor (fd_status f) O_NONBLOCK) SETFL_MASK))
          true true (fd_sent f) (fd_wr f) (fd_rd f)).
Proof.
  intros Hf Htcp.
  unfold prepared_fds, SetNonBlocking, SetTCPNoDelay, bind, fcntl_GETFL, fcntl_SETFL,
    setsockopt_TCP_NODELAY, LOG_ERROR, ret.
  rewrite Hf. cbn. rewrite Hf. cbn.
  rewrite lookup_insert_eq. cbn. rewrite Htcp. cbn.
  rewrite lookup_insert_eq.
  unfold fd_with_nodelay, fd_with_status.
  cbn [fd_status fd_tcp fd_nodelay fd_sent fd_wr fd_rd].
  rewrite Htcp. reflexivity.
Qed.

Lemma nonblocking_bit_set (s : Z) :
  Z.testbit (Z.lor (Z.land s (Z.lnot SETFL_MASK))
                   (Z.land (Z.lor s O_NONBLOCK) SETFL_MASK))
            (Z.log2 O_NONBLOCK) = true.
Proof.
  rewrite Z.lor_spec, !Z.land_spec, Z.lor_spec.
  replace (Z.testbit O_NONBLOCK (Z.log2 O_NONBLOCK)) with true by reflexivity.
  replace (Z.testbit SETFL_MASK (Z.log2 O_NONBLOCK)) with true by reflexivity.
  rewrite orb_true_r. cbn. apply orb_true_r.
Qed.

(** ** Buffer *)

(** C4. [Buffer::Reset] sets the cursor [buf_ptr] and the filled length
    [buf_size] to zero and leaves every byte of the array as it was. *)
Theorem Buffer_Reset_zeroes_counters_keeps_bytes (b : Buffer) :
  buf_ptr (Buffer_Reset b) = 0 /\
  buf_size (Buffer_Reset b) = 0 /\
  buf (Buffer_Reset b) = buf b.
Proof. unfold Buffer_Reset. cbn. auto. Qed.

Lemma Buffer_inv_new raw : Buffer_inv (Buffer_new raw).
Proof. unfold Buffer_inv, Buffer_new, SOCKET_BUFFER_SIZE. cbn. lia. Qed.

Lemma Buffer_inv_Reset b : Buffer_inv (Buffer_Reset b).
Proof. unfold Buffer_inv, Buffer_Reset, SOCKET_BUFFER_SIZE. cbn. lia. Qed.

Lemma remaining_inv b : Buffer_inv b -> remaining b = buf_size b - buf_ptr b.
Proof.
  unfold Buffer_inv, remaining, size_t_wrap, SOCKET_BUFFER_SIZE. intros (H0 & H1 & H2).
  apply Z.mod_small. lia.
Qed.

Lemma Buffer_inv_consume n b :
  Buffer_inv b -> consume_pre n b -> Buffer_inv (consume n b).
Proof.
  intros Hb Hn. unfold consume_pre in Hn. rewrite (remaining_inv b Hb) in Hn.
  unfold Buffer_inv, SOCKET_BUFFER_SIZE in *. destruct Hb as (H0 & H1 & H2).
  unfold consume, size_t_wrap. cbn.
  rewrite Z.mod_small by lia. lia.
Qed.

Lemma Buffer_inv_append src n b :
  Buffer_inv b -> append_pre n b -> Buffer_inv (append src n b).
Proof.
  unfold append_pre, Buffer_inv, SOCKET_BUFFER_SIZE. intros (H0 & H1 & H2) [Hn Hfit].
  unfold append, size_t_wrap. cbn.
  rewrite Z.mod_small by lia. lia.
Qed.

Lemma Buffer_inv_run_BufferOp op b :
  Buffer_inv b -> BufferOp_pre op b -> Buffer_inv (run_BufferOp op b).
Proof.
  destruct op; cbn; intros Hb Hpre.
  - apply Buffer_inv_Reset.
  - by apply Buffer_inv_consume.
  - by apply Buffer_inv_append.
Qed.

(** ** LibeventThread *)

(** C9. Constructing a [LibeventThread] with a null event base ends the
    process with exit code 1, which is not zero, and no object is
    returned; with a non-null base the constructor returns the object,
    which holds the thread id and the base, and changes nothing else. *)
Theorem LibeventThread_new_null_exits (thread_id : Z) (base : ptr) (w : World) :
  (base = nullptr ->
   fst (LibeventThread_new thread_id base w) = ProcessExit 1 /\ 1 <> 0) /\
  (base <> nullptr ->
   LibeventThread_new thread_id base w = (Returned (mkLibeventThread thread_id base), w) /\
   GetEventBase (mkLibeventThread thread_id base) = base).
Proof.
  unfold LibeventThread_new. cbn [libevent_base_]. split; intros Hb.
  - destruct (decide (base = nullptr)) as [_|Hn]; [|contradiction].
    unfold bind, LOG_ERROR, ret. cbn. split; [reflexivity | lia].
  - destruct (decide (base = nullptr)) as [He|_]; [contradiction|].
    split; reflexivity.
Qed.

Lemma LibeventThread_new_null_exits_witness :
  (fst (LibeventThread_new 3 nullptr demo_world) = ProcessExit 1 /\ 1 <> 0) /\
  (LibeventThread_new 3 4096 demo_world
   = (Returned (mkLibeventThread 3 4096), demo_world) /\
   GetEventBase (mkLibeventThread 3 4096) = 4096).
Proof.
  split.
  - apply (proj1 (LibeventThread_new_null_exits 3 nullptr demo_world)).
    reflexivity.
  - apply (proj2 (LibeventThread_new_null_exits 3 4096 demo_world)).
    unfold nullptr. lia.
Defined.

(** ** LibeventSocket: construction and Reset *)

(** C2. [Reset(flags, thread)] leaves the read and the write buffer
    empty (cursor and filled length zero), leaves no protocol handler,
    leaves [is_disconnected] false, stores the flags and the thread, and
    leaves the connection's event handle naming a pending event on
    [sock_fd], in the thread's event base, under the given flags, with
    [EventHandler] as callback and the connection as its argument. *)
Theorem Reset_reinitializes (this : ptr) (fl : Z) (t : LibeventThread)
    (c : LibeventSocket) (w : World) :
  let c' := fst (Reset this fl t c w) in
  let w' := snd (Reset this fl t c w) in
  (buf_ptr (rbuf c') = 0 /\ buf_size (rbuf c') = 0) /\
  (buf_ptr (wbuf c') = 0 /\ buf_size (wbuf c') = 0) /\
  pkt_manager c' = None /\
  is_disconnected c' = false /\
  event_flags c' = fl /\ thread c' = t /\
  lookup_event (event c') w' =
    Some (mkEvent (GetEventBase t) (sock_fd c) fl EventHandler this true).
Proof.
  intros c' w'. subst c' w'. rewrite Reset_eq. cbn [fst snd].
  cbn [rbuf wbuf pkt_manager is_disconnected event_flags thread event Buffer_Reset
       buf_ptr buf_size].
  repeat split.
  apply (lookup_event_last w).
Qed.

(** C5. [Reset(flags, thread)] leaves [sock_fd] as it was, and the event
    it installs is a new one (its handle named no event before) created
    for that same descriptor. *)
Theorem Reset_keeps_sock_fd (this : ptr) (fl : Z) (t : LibeventThread)
    (c : LibeventSocket) (w : World) :
  let c' := fst (Reset this fl t c w) in
  let w' := snd (Reset this fl t c w) in
  sock_fd c' = sock_fd c /\
  lookup_event (event c') w = None /\
  exists e, lookup_event (event c') w' = Some e /\ ev_fd e = sock_fd c'.
Proof.
  intros c' w'. subst c' w'. rewrite Reset_eq. cbn [fst snd sock_fd event].
  split; [reflexivity|]. split; [apply lookup_event_fresh|].
  eexists. split; [apply (lookup_event_last w)|]. reflexivity.
Qed.

(** C6. When [sock_fd] names an open TCP socket, then after the
    constructor, and likewise after [Reset], the descriptor is still
    open, has [O_NONBLOCK] set in its file-status flags and has
    [TCP_NODELAY] enabled. *)
Theorem socket_options_set (this : ptr) (raw : RawMemory) (fl : Z)
    (t : LibeventThread) (c : LibeventSocket) (w : World) (f : FileDesc) :
  w_fds w !! sock_fd c = Some f ->
  fd_tcp f = true ->
  (exists f', w_fds (snd (LibeventSocket_new this raw (sock_fd c) fl t w)) !! sock_fd c = Some f'
              /\ is_nonblocking f' = true /\ fd_nodelay f' = true) /\
  (exists f', w_fds (snd (Reset this fl t c w)) !! sock_fd c = Some f'
              /\ is_nonblocking f' = true /\ fd_nodelay f' = true).
Proof.
  intros Hf Htcp.
  rewrite LibeventSocket_new_eq, Reset_eq. cbn [snd w_fds].
  rewrite (prepared_fds_open _ _ _ Hf Htcp).
  split; eexists; (split; [reflexivity|]); (split; [|reflexivity]);
    unfold is_nonblocking; cbn [fd_status]; apply nonblocking_bit_set.
Qed.

Lemma socket_options_set_witness :
  (exists f', w_fds (snd (LibeventSocket_new 500 demo_raw (sock_fd demo_conn) 2
                            demo_thread demo_world))
                !! sock_fd demo_conn = Some f'
              /\ is_nonblocking f' = true /\ fd_nodelay f' = true) /\
  (exists f', w_fds (snd (Reset 500 2 demo_thread demo_conn demo_world))
                !! sock_fd demo_conn = Some f'
              /\ is_nonblocking f' = true /\ fd_nodelay f' = true).
Proof.
  apply (socket_options_set 500 demo_raw 2 demo_thread demo_conn demo_world demo_file);
    reflexivity.
Defined.

Lemma Resets_events this args : forall c w,
  exists extra,
    w_events (snd (Resets this args c w)) = w_events w ++ extra /\
    length extra = length args /\
    Forall (fun e => ev_fd e = sock_fd c) extra /\
    sock_fd (fst (Resets this args c w)) = sock_fd c.
Proof.
  induction args as [|[fl t] rest IH]; intros c w.
  - exists []. cbn. rewrite app_nil_r. auto.
  - cbn [Resets]. unfold bind. rewrite Reset_eq.
    match goal with |- context [Resets this rest ?c1 ?w1] =>
      destruct (IH c1 w1) as (extra & Hev & Hlen & Hall & Hfd) end.
    cbn [w_events sock_fd] in Hev, Hall, Hfd.
    eexists (_ :: extra). rewrite Hev, <- app_assoc. cbn [app].
    split; [reflexivity|]. split; [cbn; lia|]. split; [|exact Hfd].
    constructor; [reflexivity | exact Hall].
Qed.

Lemma filter_all_length {A} (P : A -> Prop) `{forall x, Decision (P x)} (l : list A) :
  Forall P l -> length (filter P l) = length l.
Proof.
  induction 1 as [|x l Hx _ IH]; [reflexivity|].
  rewrite filter_cons_True by done. cbn. by rewrite IH.
Qed.

(** C10. The constructor's [Init] allocates one new event (under a
    handle that named no event before) and so does the [Init] of every
    [Reset], which overwrites the connection's handle with the new one;
    neither removes or alters an event allocated earlier. Hence after
    construction and [n] resets, [n + 1] more events exist for the
    descriptor than before, and the constructor's registration is still
    pending. *)
Theorem Init_allocates_and_never_releases (this : ptr) (raw : RawMemory) (fd : Z)
    (fl : Z) (t : LibeventThread) (args : list (Z * LibeventThread)) (w : World) :
  let r0 := LibeventSocket_new this raw fd fl t w in
  let rn := Resets this args (fst r0) (snd r0) in
  let e0 := mkEvent (GetEventBase t) fd fl EventHandler this true in
  (w_events (snd r0) = w_events w ++ [e0] /\ lookup_event (event (fst r0)) w = None) /\
  (forall fl' t' c w1,
      w_events (snd (Reset this fl' t' c w1))
        = w_events w1 ++ [mkEvent (GetEventBase t') (sock_fd c) fl' EventHandler this true] /\
      lookup_event (event (fst (Reset this fl' t' c w1))) w1 = None /\
      event (fst (Reset this fl' t' c w1)) = event_handle (length (w_events w1))) /\
  created_for fd (snd rn) = (created_for fd w + (length args + 1))%nat /\
  w_events (snd r0) `prefix_of` w_events (snd rn) /\
  lookup_event (event (fst r0)) (snd rn) = Some e0.
Proof.
  intros r0 rn e0. subst r0 rn e0.
  rewrite LibeventSocket_new_eq. cbn [fst snd w_events event].
  split; [split; [reflexivity | apply lookup_event_fresh]|].
  split.
  { intros. rewrite Reset_eq. cbn [fst snd w_events event].
    split; [reflexivity|]. split; [apply lookup_event_fresh | reflexivity]. }
  match goal with |- context [Resets this args ?c1 ?w1] =>
    destruct (Resets_events this args c1 w1) as (extra & Hev & Hlen & Hall & _) end.
  cbn [w_events sock_fd] in Hev, Hall.
  split; [|split].
  - unfold created_for. rewrite Hev. rewrite !filter_app, !length_app.
    rewrite (filter_all_length _ extra Hall), Hlen.
    rewrite filter_cons_True by reflexivity. cbn. lia.
  - rewrite Hev. by eexists.
  - unfold lookup_event. rewrite event_index_handle. cbn [mbind option_bind].
    rewrite Hev. rewrite lookup_app_l by (rewrite length_app; cbn; lia).
    apply list_lookup_middle. reflexivity.
Qed.

(** ** The disconnect flag *)

Lemma keeps_latch_refl c : keeps_latch c c.
Proof. intros H; exact H. Qed.

Lemma keeps_latch_trans c1 c2 c3 :
  keeps_latch c1 c2 -> keeps_latch c2 c3 -> keeps_latch c1 c3.
Proof. unfold keeps_latch. auto. Qed.

Lemma flush_loop_keeps_latch fuel : forall c w,
  keeps_latch c (snd (fst (flush_loop fuel c w))).
Proof.
  induction fuel as [|fuel IH]; intros c w; cbn [flush_loop];
    destruct (buf_ptr (wbuf c) <? buf_size (wbuf c)); try (intros H; exact H).
  unfold bind. destruct (sys_write (sock_fd c) (pending (wbuf c)) w) as [[n|e] w1].
  - eapply keeps_latch_trans; [|apply IH]. intros H; exact H.
  - destruct (decide (e = EAGAIN)); intros H; [exact H | reflexivity].
Qed.

Lemma FlushWriteBuffer_keeps_latch c w :
  keeps_latch c (snd (fst (FlushWriteBuffer c w))).
Proof. apply flush_loop_keeps_latch. Qed.

Lemma buffer_packet_keeps_latch pkt c w :
  keeps_latch c (snd (fst (buffer_packet pkt c w))).
Proof.
  unfold buffer_packet.
  destruct (Z.of_nat (length pkt) <=? GetMaxSize (wbuf c) - buf_size (wbuf c)).
  - intros H; exact H.
  - unfold bind. pose proof (FlushWriteBuffer_keeps_latch c w) as Hf.
    destruct (FlushWriteBuffer c w) as [[ok c1] w1]. cbn in Hf.
    destruct ok; cbn; exact Hf.
Qed.

Lemma buffer_chunks_keeps_latch cs : forall c w,
  keeps_latch c (snd (fst (buffer_chunks cs c w))).
Proof.
  induction cs as [|ch rest IH]; intros c w; cbn [buffer_chunks].
  - intros H; exact H.
  - unfold bind. pose proof (buffer_packet_keeps_latch ch c w) as Hp.
    destruct (buffer_packet ch c w) as [[ok c1] w1]. cbn in Hp.
    destruct ok; [|exact Hp].
    eapply keeps_latch_trans; [exact Hp | apply IH].
Qed.

Lemma BufferWriteBytes_keeps_latch p len type c w :
  keeps_latch c (snd (fst (BufferWriteBytes p len type c w))).
Proof.
  unfold BufferWriteBytes. destruct (5 + len <=? GetMaxSize (wbuf c)).
  - apply buffer_packet_keeps_latch.
  - unfold bind. pose proof (FlushWriteBuffer_keeps_latch c w) as Hf.
    destruct (FlushWriteBuffer c w) as [[ok c1] w1]. cbn in Hf.
    destruct ok; [|exact Hf].
    eapply keeps_latch_trans; [exact Hf | apply buffer_chunks_keeps_latch].
Qed.

Lemma RefillReadBuffer_keeps_latch c w :
  keeps_latch c (snd (fst (RefillReadBuffer c w))).
Proof.
  unfold RefillReadBuffer, bind.
  destruct (sys_read (sock_fd c) (GetMaxSize (rbuf c) - buf_size (rbuf c)) w)
    as [[[|b bs]|e] w1]; try (intros H; first [exact H | reflexivity]).
  destruct (decide (e = EAGAIN)); intros H; [exact H | reflexivity].
Qed.

Lemma read_loop_keeps_latch fuel bytes : forall c w,
  keeps_latch c (snd (fst (read_loop fuel bytes c w))).
Proof.
  induction fuel as [|fuel IH]; intros c w; cbn [read_loop];
    destruct (bytes <=? remaining (rbuf c)); try (intros H; exact H).
  unfold bind. pose proof (RefillReadBuffer_keeps_latch c w) as Hr.
  destruct (RefillReadBuffer c w) as [[ok c1] w1]. cbn in Hr.
  destruct ok; [|exact Hr].
  eapply keeps_latch_trans; [exact Hr | apply IH].
Qed.

Lemma run_ConnOp_keeps_latch op c w :
  is_DoReset op = false -> keeps_latch c (fst (run_ConnOp op c w)).
Proof.
  destruct op; cbn [is_DoReset run_ConnOp]; intros Hop; try discriminate; unfold bind.
  - pose proof (RefillReadBuffer_keeps_latch c w) as H.
    destruct (RefillReadBuffer c w) as [[ok c1] w1]. exact H.
  - pose proof (read_loop_keeps_latch (Z.to_nat bytes) bytes c w) as H.
    unfold ReadBytes. destruct (read_loop (Z.to_nat bytes) bytes c w) as [[ok c1] w1].
    exact H.
  - pose proof (BufferWriteBytes_keeps_latch pkt_buf len type c w) as H.
    destruct (BufferWriteBytes pkt_buf len type c w) as [[ok c1] w1]. exact H.
  - pose proof (FlushWriteBuffer_keeps_latch c w) as H.
    destruct (FlushWriteBuffer c w) as [[ok c1] w1]. exact H.
  - unfold CloseSocket, bind.
    destruct (sys_close (sock_fd c) w) as [r1 w1].
    destruct (event_del (event c) w1) as [r2 w2]. intros _. reflexivity.
Qed.

Lemma disconnect_trace_latched ops : forall c w,
  forallb (fun op => negb (is_DoReset op)) ops = true ->
  is_disconnected c = true ->
  disconnect_trace ops c w = replicate (S (length ops)) true.
Proof.
  induction ops as [|op rest IH]; intros c w Hops Hc; cbn [disconnect_trace].
  - rewrite Hc. reflexivity.
  - cbn in Hops. apply andb_true_iff in Hops as [Hop Hrest].
    apply negb_true_iff in Hop.
    pose proof (run_ConnOp_keeps_latch op c w Hop Hc) as Hstep.
    destruct (run_ConnOp op c w) as [c' w']. cbn in Hstep.
    rewrite (IH c' w' Hrest Hstep), Hc. reflexivity.
Qed.

(** C3. Over any run of operations other than [Reset], the successive
    values of [is_disconnected] are some falses followed by some trues:
    the flag rises at most once and, once true, stays true. Only [Reset]
    can take it from true to false, and both [Reset] and the constructor
    leave it false. *)
Theorem is_disconnected_is_a_latch (ops : list ConnOp) (c : LibeventSocket) (w : World) :
  forallb (fun op => negb (is_DoReset op)) ops = true ->
  (exists a b, disconnect_trace ops c w = replicate a false ++ replicate b true) /\
  (forall op c1 w1,
      is_disconnected c1 = true ->
      is_disconnected (fst (run_ConnOp op c1 w1)) = false ->
      is_DoReset op = true) /\
  (forall this fl t c1 w1, is_disconnected (fst (Reset this fl t c1 w1)) = false) /\
  (forall this raw fd fl t w1,
      is_disconnected (fst (LibeventSocket_new this raw fd fl t w1)) = false).
Proof.
  intros Hops. split; [|split; [|split]].
  - revert c w Hops. induction ops as [|op rest IH]; intros c w Hops.
    + cbn. destruct (is_disconnected c); [exists 0%nat, 1%nat | exists 1%nat, 0%nat];
        reflexivity.
    + destruct (is_disconnected c) eqn:Hc.
      * exists 0%nat, (S (length (op :: rest))).
        by rewrite (disconnect_trace_latched (op :: rest) c w Hops Hc).
      * cbn in Hops. apply andb_true_iff in Hops as [_ Hrest].
        cbn [disconnect_trace]. rewrite Hc.
        destruct (run_ConnOp op c w) as [c' w'].
        destruct (IH c' w' Hrest) as (a & b & Htr).
        exists (S a), b. rewrite Htr. reflexivity.
  - intros op c1 w1 Ht Hf. destruct (is_DoReset op) eqn:Hop; [reflexivity|].
    pose proof (run_ConnOp_keeps_latch op c1 w1 Hop Ht) as H. congruence.
  - intros. rewrite Reset_eq. reflexivity.
  - intros. rewrite LibeventSocket_new_eq. reflexivity.
Qed.

Lemma is_disconnected_is_a_latch_witness :
  exists a b,
    disconnect_trace
      [DoBufferWriteBytes [104; 105] 2 65; DoFlushWriteBuffer; DoRefillReadBuffer;
       DoCloseSocket; DoFlushWriteBuffer] demo_conn demo_world
    = replicate a false ++ replicate b true.
Proof.
  apply (proj1 (is_disconnected_is_a_latch
                  [DoBufferWriteBytes [104; 105] 2 65; DoFlushWriteBuffer;
                   DoRefillReadBuffer; DoCloseSocket; DoFlushWriteBuffer]
                  demo_conn demo_world eq_refl)).
Defined.

(** ** The write path *)

Lemma sys_write_Transferred fd data w n w' :
  sys_write fd data w = (Transferred n, w') ->
  0 <= n <= Z.of_nat (length data) /\
  (data <> [] -> 1 <= n) /\
  sent fd w' = sent fd w ++ take (Z.to_nat n) data.
Proof.
  unfold sys_write, sent. destruct (w_fds w !! fd) as [f|] eqn:Hf; [|discriminate].
  destruct (fd_wr f) as [|[k|e] rest]; try discriminate.
  intros [= <- <-]. cbn [w_fds w_with_fds]. rewrite lookup_insert_eq. cbn [fd_sent fd_after_write].
  split; [lia|]. split; [|reflexivity].
  intros Hne. destruct data; [contradiction|]. cbn [length]. lia.
Qed.

Lemma pending_length b :
  Buffer_wf b -> length (pending b) = Z.to_nat (buf_size b - buf_ptr b).
Proof.
  unfold Buffer_wf, Buffer_inv, SockBuf_ok, pending. intros [(H0 & H1 & H2) Hlen].
  rewrite length_take, length_drop. lia.
Qed.

Lemma pending_consume n b :
  Buffer_wf b -> 0 <= n <= buf_size b - buf_ptr b ->
  pending b = take (Z.to_nat n) (pending b) ++ pending (consume n b).
Proof.
  unfold Buffer_wf, Buffer_inv, SockBuf_ok, SOCKET_BUFFER_SIZE.
  intros [(H0 & H1 & H2) Hlen] Hn.
  unfold pending, consume, size_t_wrap. cbn [buf_ptr buf_size buf].
  rewrite Z.mod_small by lia.
  rewrite take_take, Nat.min_l by lia.
  replace (Z.to_nat (buf_ptr b + n)) with (Z.to_nat (buf_ptr b) + Z.to_nat n)%nat by lia.
  rewrite <- drop_drop, take_take_drop. f_equal. lia.
Qed.

Lemma Buffer_wf_consume n b :
  Buffer_wf b -> 0 <= n <= buf_size b - buf_ptr b -> Buffer_wf (consume n b).
Proof.
  intros [Hinv Hlen] Hn. split; [|exact Hlen].
  apply Buffer_inv_consume; [exact Hinv|].
  unfold consume_pre. rewrite (remaining_inv b Hinv). exact Hn.
Qed.

Lemma Buffer_wf_Reset b : Buffer_wf b -> Buffer_wf (Buffer_Reset b).
Proof. intros [_ Hlen]. split; [apply Buffer_inv_Reset | exact Hlen]. Qed.

Lemma pending_Reset b : pending (Buffer_Reset b) = [].
Proof. reflexivity. Qed.

Create HintDb buffers.
#[local] Hint Resolve Buffer_inv_new Buffer_inv_Reset Buffer_wf_Reset : buffers.

Lemma append_spec src b :
  Buffer_wf b ->
  buf_size b + Z.of_nat (length src) <= SOCKET_BUFFER_SIZE ->
  Buffer_wf (append src (Z.of_nat (length src)) b) /\
  pending (append src (Z.of_nat (length src)) b) = pending b ++ src.
Proof.
  unfold Buffer_wf, Buffer_inv, SockBuf_ok, SOCKET_BUFFER_SIZE.
  intros [(H0 & H1 & H2) Hlen] Hfit.
  unfold append, pending, size_t_wrap. cbn [buf_ptr buf_size buf].
  rewrite Nat2Z.id, firstn_all, Z.mod_small by lia.
  split; [split; [lia|]|].
  - rewrite !length_app, length_take, length_drop. lia.
  - set (A := drop (Z.to_nat (buf_ptr b)) (take (Z.to_nat (buf_size b)) (buf b))).
    assert (HA : length A = Z.to_nat (buf_size b - buf_ptr b)).
    { unfold A. rewrite length_drop, length_take. lia. }
    rewrite drop_app_le by (rewrite length_take; lia). fold A.
    rewrite take_app_ge by lia.
    replace (Z.to_nat (buf_size b + Z.of_nat (length src) - buf_ptr b) - length A)%nat
      with (length src) by lia.
    rewrite take_app_length.
    f_equal. unfold A. rewrite take_drop_commute. f_equal. f_equal. lia.
Qed.

Lemma flush_loop_success fuel : forall c w c' w',
  Buffer_wf (wbuf c) ->
  flush_loop fuel c w = ((true, c'), w') ->
  sent (sock_fd c) w' = stream c w /\ c' = set_wbuf (Buffer_Reset (wbuf c)) c.
Proof.
  induction fuel as [|fuel IH]; intros c w c' w' Hwf; cbn [flush_loop];
    destruct (Z.ltb_spec (buf_ptr (wbuf c)) (buf_size (wbuf c))) as [Hlt|Hge];
    try discriminate.
  - intros [= <- <-]. unfold stream, pending.
    replace (Z.to_nat (buf_size (wbuf c) - buf_ptr (wbuf c))) with 0%nat by lia.
    rewrite take_0, app_nil_r. auto.
  - unfold bind.
    destruct (sys_write (sock_fd c) (pending (wbuf c)) w) as [[n|e] w1] eqn:Hw.
    + apply sys_write_Transferred in Hw as (Hn & Hpos & Hsent).
      rewrite (pending_length _ Hwf) in Hn.
      assert (Hn' : 0 <= n <= buf_size (wbuf c) - buf_ptr (wbuf c)) by lia.
      intros Hloop. apply IH in Hloop as [Hs Hc'].
      * cbn [sock_fd set_wbuf wbuf] in Hs, Hc'. split.
        -- rewrite Hs. unfold stream. cbn [sock_fd set_wbuf wbuf].
           rewrite Hsent, <- app_assoc. f_equal. symmetry.
           by apply pending_consume.
        -- rewrite Hc'. reflexivity.
      * cbn [set_wbuf wbuf]. by apply Buffer_wf_consume.
    + destruct (decide (e = EAGAIN)); discriminate.
  - intros [= <- <-]. unfold stream, pending.
    replace (Z.to_nat (buf_size (wbuf c) - buf_ptr (wbuf c))) with 0%nat by lia.
    rewrite take_0, app_nil_r. auto.
Qed.

Lemma FlushWriteBuffer_success c w c' w' :
  Buffer_wf (wbuf c) ->
  FlushWriteBuffer c w = ((true, c'), w') ->
  sent (sock_fd c) w' = stream c w /\ c' = set_wbuf (Buffer_Reset (wbuf c)) c.
Proof. apply flush_loop_success. Qed.

Lemma buffer_packet_success pkt c w c' w' :
  Buffer_wf (wbuf c) ->
  Z.of_nat (length pkt) <= SOCKET_BUFFER_SIZE ->
  buffer_packet pkt c w = ((true, c'), w') ->
  stream c' w' = stream c w ++ pkt /\ Buffer_wf (wbuf c') /\ sock_fd c' = sock_fd c.
Proof.
  intros Hwf Hsize. unfold buffer_packet, GetMaxSize.
  destruct (Z.leb_spec (Z.of_nat (length pkt)) (SOCKET_BUFFER_SIZE - buf_size (wbuf c)))
    as [Hfit|Hnofit].
  - intros [= <- <-].
    destruct (append_spec pkt (wbuf c) Hwf) as [Hwf' Hpend]; [lia|].
    unfold stream. cbn [sock_fd set_wbuf wbuf]. rewrite Hpend, app_assoc. auto.
  - unfold bind. destruct (FlushWriteBuffer c w) as [[ok c1] w1] eqn:Hflush.
    destruct ok; [|discriminate]. intros [= <- <-].
    apply FlushWriteBuffer_success in Hflush as [Hs ->]; [|exact Hwf].
    cbn [sock_fd set_wbuf wbuf].
    destruct (append_spec pkt (Buffer_Reset (wbuf c)) (Buffer_wf_Reset _ Hwf))
      as [Hwf' Hpend]; [cbn; lia|].
    unfold stream at 1. cbn [sock_fd set_wbuf wbuf].
    rewrite Hpend, pending_Reset, Hs. auto.
Qed.

Lemma buffer_chunks_success cs : forall c w c' w',
  Buffer_wf (wbuf c) ->
  Forall (fun ch => Z.of_nat (length ch) <= SOCKET_BUFFER_SIZE) cs ->
  buffer_chunks cs c w = ((true, c'), w') ->
  stream c' w' = stream c w ++ concat cs /\
  Buffer_wf (wbuf c') /\ sock_fd c' = sock_fd c.
Proof.
  induction cs as [|ch rest IH]; intros c w c' w' Hwf Hall; cbn [buffer_chunks].
  - intros [= <- <-]. cbn. rewrite app_nil_r. auto.
  - apply Forall_cons in Hall as [Hch Hrest]. unfold bind.
    destruct (buffer_packet ch c w) as [[ok c1] w1] eqn:Hp.
    destruct ok; [|discriminate].
    apply buffer_packet_success in Hp as (Hs1 & Hwf1 & Hfd1); [|exact Hwf|exact Hch].
    intros Hloop. apply IH in Hloop as (Hs2 & Hwf2 & Hfd2); [|exact Hwf1|exact Hrest].
    rewrite Hs2, Hs1, <- app_assoc. cbn [concat]. split; [reflexivity|].
    split; [exact Hwf2 | congruence].
Qed.

Lemma chunks_bounded fuel k : forall l,
  Forall (fun ch => (length ch <= k)%nat) (chunks fuel k l).
Proof.
  induction fuel as [|fuel IH]; intros l; cbn [chunks]; [constructor|].
  destruct l as [|x l]; constructor; [|apply IH].
  rewrite length_take. lia.
Qed.

(** Cutting into chunks loses nothing: put end to end, the chunks are
    the payload. *)
Lemma chunks_concat fuel k : forall l,
  (0 < k)%nat -> (length l <= fuel)%nat -> concat (chunks fuel k l) = l.
Proof.
  induction fuel as [|fuel IH]; intros l Hk Hlen; cbn [chunks].
  - destruct l; [reflexivity | cbn in Hlen; lia].
  - destruct l as [|x l]; [reflexivity|].
    cbn [concat]. rewrite IH; [apply take_drop | exact Hk |].
    rewrite length_drop. cbn [length] in *. lia.
Qed.

Lemma packet_header_length type len : length (packet_header type len) = 5%nat.
Proof. reflexivity. Qed.

(** The length field holds the low 32 bits of its value. *)
Lemma be32_wrap (x : Z) : be32 (uint32_wrap x) = be32 x.
Proof.
  assert (H : forall k, 0 <= k <= 24 ->
            Z.land (Z.shiftr (x mod 2 ^ 32) k) 255 = Z.land (Z.shiftr x k) 255).
  { intros k Hk. apply Z.bits_inj'. intros i Hi.
    rewrite !Z.land_spec, !Z.shiftr_spec by exact Hi.
    destruct (Z.ltb_spec i 8) as [Hlt|Hge].
    - rewrite Z.mod_pow2_bits_low by lia. reflexivity.
    - change 255 with (Z.ones 8). rewrite Z.ones_spec_high by lia.
      rewrite !andb_false_r. reflexivity. }
  unfold be32, uint32_wrap.
  rewrite (H 24), (H 16), (H 8) by lia.
  specialize (H 0). rewrite !Z.shiftr_0_r in H. rewrite H by lia. reflexivity.
Qed.

(** What a successful [BufferWriteBytes] commits to the peer: one
    packet, behind what was committed before. *)
Lemma BufferWriteBytes_success p type c w c' w' :
  Buffer_wf (wbuf c) ->
  BufferWriteBytes p (Z.of_nat (length p)) type c w = ((true, c'), w') ->
  stream c' w' = stream c w ++ frame type p /\
  Buffer_wf (wbuf c') /\ sock_fd c' = sock_fd c.
Proof.
  intros Hwf. unfold BufferWriteBytes, GetMaxSize.
  rewrite Nat2Z.id, firstn_all.
  destruct (Z.leb_spec (5 + Z.of_nat (length p)) SOCKET_BUFFER_SIZE) as [Hfit|Hbig].
  - intros Hp. apply buffer_packet_success in Hp as (Hs & Hwf' & Hfd); [auto|exact Hwf|].
    unfold frame. rewrite length_app, packet_header_length. lia.
  - unfold bind. destruct (FlushWriteBuffer c w) as [[ok c1] w1] eqn:Hflush.
    destruct ok; [|discriminate].
    apply FlushWriteBuffer_success in Hflush as [Hs ->]; [|exact Hwf].
    intros Hch. apply buffer_chunks_success in Hch as (Hs' & Hwf' & Hfd').
    + cbn [sock_fd set_wbuf wbuf] in Hs', Hfd'. rewrite Hs'.
      unfold stream at 1. cbn [sock_fd set_wbuf wbuf].
      rewrite pending_Reset, app_nil_r, Hs. cbn [concat].
      rewrite chunks_concat by (unfold SOCKET_BUFFER_SIZE; lia). auto.
    + cbn [set_wbuf wbuf]. by apply Buffer_wf_Reset.
    + constructor.
      * rewrite packet_header_length. unfold SOCKET_BUFFER_SIZE. lia.
      * eapply Forall_impl; [apply chunks_bounded|].
        cbn. intros ch Hlen. unfold SOCKET_BUFFER_SIZE in *. lia.
Qed.

Lemma demo_conn_wbuf_wf : Buffer_wf (wbuf demo_conn).
Proof.
  split.
  - apply Buffer_inv_new.
  - unfold SockBuf_ok. cbn [wbuf demo_conn Buffer_new buf]. unfold zeroed_array.
    rewrite length_replicate. apply Z2Nat.id. unfold SOCKET_BUFFER_SIZE. lia.
Defined.

(** C7. For every payload [p] of length [len] and every type byte, when
    [BufferWriteBytes(p, len, type)] succeeds and the [FlushWriteBuffer]
    after it completes, the bytes that have gone on the wire are those
    still buffered beforehand followed by exactly
    [[type][len + 4 as big-endian u32][p]]; with nothing buffered
    beforehand, exactly that packet. For type [0x41] and payload
    ["hello"] the packet is [41 00 00 00 09 68 65 6C 6C 6F]. *)
Theorem BufferWriteBytes_flush_round_trip (p : list uchar) (type : uchar)
    (c : LibeventSocket) (w : World) :
  Buffer_wf (wbuf c) ->
  fst (fst (BufferWriteBytes p (Z.of_nat (length p)) type c w)) = true ->
  fst (fst (FlushWriteBuffer
              (snd (fst (BufferWriteBytes p (Z.of_nat (length p)) type c w)))
              (snd (BufferWriteBytes p (Z.of_nat (length p)) type c w)))) = true ->
  sent (sock_fd c)
       (snd (FlushWriteBuffer
               (snd (fst (BufferWriteBytes p (Z.of_nat (length p)) type c w)))
               (snd (BufferWriteBytes p (Z.of_nat (length p)) type c w))))
  = sent (sock_fd c) w ++ pending (wbuf c)
      ++ type :: be32 (Z.of_nat (length p) + 4) ++ p
  /\ frame 65 hello = [65; 0; 0; 0; 9; 104; 101; 108; 108; 111].
Proof.
  intros Hwf.
  destruct (BufferWriteBytes p (Z.of_nat (length p)) type c w) as [[ok1 c1] w1] eqn:H1.
  cbn [fst snd]. intros ->.
  destruct (FlushWriteBuffer c1 w1) as [[ok2 c2] w2] eqn:H2.
  cbn [fst snd]. intros ->.
  split; [|reflexivity].
  apply BufferWriteBytes_success in H1 as (Hs1 & Hwf1 & Hfd1); [|exact Hwf].
  apply FlushWriteBuffer_success in H2 as [Hs2 _]; [|exact Hwf1].
  rewrite Hfd1 in Hs2. rewrite Hs2, Hs1. unfold stream.
  rewrite <- app_assoc. do 2 f_equal.
  unfold frame, packet_header. rewrite be32_wrap. reflexivity.
Qed.

Lemma BufferWriteBytes_flush_round_trip_witness :
  sent (sock_fd demo_conn)
       (snd (FlushWriteBuffer
               (snd (fst (BufferWriteBytes hello (Z.of_nat (length hello)) 65
                            demo_conn demo_world)))
               (snd (BufferWriteBytes hello (Z.of_nat (length hello)) 65
                       demo_conn demo_world))))
  = sent (sock_fd demo_conn) demo_world ++ pending (wbuf demo_conn)
      ++ 65 :: be32 (Z.of_nat (length hello) + 4) ++ hello
  /\ frame 65 hello = [65; 0; 0; 0; 9; 104; 101; 108; 108; 111].
Proof.
  apply (BufferWriteBytes_flush_round_trip hello 65 demo_conn demo_world).
  - exact demo_conn_wbuf_wf.
  - vm_compute. reflexivity.
  - vm_compute. reflexivity.
Defined.

(** ** Dispatch *)

Lemma dispatch_all_app items1 : forall items2 m w,
  dispatch_all (items1 ++ items2) m w =
  dispatch_all items2 (fst (dispatch_all items1 m w)) (snd (dispatch_all items1 m w)).
Proof.
  induction items1 as [|it rest IH]; intros items2 m w; [reflexivity|].
  cbn [app dispatch_all]. unfold bind.
  destruct (DispatchConnection (new_conn_fd it) (item_event_flags it) m w) as [m1 w1].
  apply IH.
Qed.

Section RoundRobin.

(** A pool of [n] workers, [n] positive. *)
Variable n : nat.
Hypothesis n_pos : (0 < n)%nat.

Lemma worker_index_nat (k : nat) :
  Z.to_nat (Z.rem (Z.of_nat k) (Z.of_nat n)) = (k mod n)%nat.
Proof.
  rewrite Z.rem_mod_nonneg by lia.
  rewrite <- Nat2Z.inj_mod. apply Nat2Z.id.
Qed.

Lemma DispatchConnection_step fd fl m w (k : nat) :
  num_threads_ m = Z.of_nat n ->
  counter m = Z.of_nat k ->
  length (worker_threads m) = n ->
  let m' := fst (DispatchConnection fd fl m w) in
  counter m' = Z.of_nat (S k) /\
  num_threads_ m' = Z.of_nat n /\
  length (worker_threads m') = n /\
  forall i, queue_of i m' =
            if decide (i = (k mod n)%nat)
            then queue_of i m ++ [mkNewConnQueueItem fd fl]
            else queue_of i m.
Proof.
  intros Hnum Hcnt Hlen m'. subst m'. unfold DispatchConnection.
  cbn [worker_threads counter num_threads_ master_base].
  rewrite Hnum, Hcnt, (worker_index_nat k).
  assert (Hlt : (k mod n < length (worker_threads m))%nat).
  { rewrite Hlen. apply Nat.mod_upper_bound. lia. }
  destruct (lookup_lt_is_Some_2 _ _ Hlt) as [t Ht]. rewrite Ht.
  unfold bind. destruct (notify _ w) as [[] w1]. cbn [fst ret].
  cbn [counter num_threads_ worker_threads].
  split; [lia|]. split; [reflexivity|]. split; [by rewrite length_insert|].
  intros i. unfold queue_of. cbn [worker_threads].
  destruct (decide (i = (k mod n)%nat)) as [->|Hne].
  - rewrite list_lookup_insert_eq by exact Hlt. rewrite Ht. reflexivity.
  - rewrite list_lookup_insert_ne by congruence. reflexivity.
Qed.

(** Position [j * n + i] of a list that has grown by one element at its end. *)
Lemma lookup_snoc_stride {A} (items : list A) (x : A) (i j : nat) :
  (i < n)%nat ->
  (items ++ [x]) !! (j * n + i)%nat =
  if decide (i = (length items mod n)%nat /\ j = (length items / n)%nat)
  then Some x else items !! (j * n + i)%nat.
Proof.
  intros Hi. pose proof (Nat.div_mod_eq (length items) n) as Hdm.
  assert (Hub : (length items mod n < n)%nat) by (apply Nat.mod_upper_bound; lia).
  destruct (decide _) as [[-> ->]|Hne].
  - replace (length items / n * n + length items mod n)%nat with (length items) by lia.
    apply list_lookup_middle. reflexivity.
  - destruct (decide (j * n + i < length items)%nat) as [Hlt|Hge].
    + by rewrite lookup_app_l.
    + assert (j * n + i <> length items)%nat.
      { intros Heq. apply Hne.
        destruct (Nat.div_mod_unique n j (length items / n) i (length items mod n))
          as [-> ->]; [lia..|]. auto. }
      rewrite !lookup_ge_None_2; [reflexivity | lia | rewrite length_app; cbn; lia].
Qed.

(** The state of an acceptor that started idle and has dispatched
    [items]: worker [i] holds, in order, the items at positions
    [i], [i + n], [i + 2n], ... *)
Lemma dispatch_all_queues items : forall m w,
  idle_master m ->
  num_threads_ m = Z.of_nat n ->
  let m' := fst (dispatch_all items m w) in
  counter m' = Z.of_nat (length items) /\
  num_threads_ m' = Z.of_nat n /\
  length (worker_threads m') = n /\
  forall i j, (i < n)%nat -> queue_of i m' !! j = items !! (j * n + i)%nat.
Proof.
  induction items as [|x items IH] using rev_ind; intros m w Hidle Hnum m'; subst m'.
  - destruct Hidle as (Hc & Hlen & Hq). cbn [dispatch_all ret fst length].
    split; [exact Hc|]. split; [exact Hnum|]. split; [lia|].
    intros i j Hi. unfold queue_of. rewrite lookup_nil.
    destruct (worker_threads m !! i) as [t|] eqn:Ht; [|reflexivity].
    cbn. rewrite Forall_forall in Hq. rewrite (Hq t); [reflexivity|].
    eapply list_elem_of_lookup_2. exact Ht.
  - rewrite dispatch_all_app.
    destruct (IH m w Hidle Hnum) as (Hc & Hnum' & Hlen & Hq).
    destruct (dispatch_all items m w) as [m1 w1]. cbn [fst snd] in *.
    cbn [dispatch_all]. unfold bind.
    pose proof (DispatchConnection_step (new_conn_fd x) (item_event_flags x) m1 w1
                  (length items) Hnum' Hc Hlen) as (Hc2 & Hnum2 & Hlen2 & Hq2).
    destruct (DispatchConnection (new_conn_fd x) (item_event_flags x) m1 w1) as [m2 w2].
    cbn [fst ret] in *.
    split; [rewrite length_app; cbn; lia|]. split; [exact Hnum2|]. split; [exact Hlen2|].
    intros i j Hi. rewrite Hq2, (lookup_snoc_stride items x i j Hi).
    assert (Hqlen : i = (length items mod n)%nat ->
                    length (queue_of i m1) = (length items / n)%nat).
    { intros ->. pose proof (Nat.div_mod_eq (length items) n) as Hdm.
      apply Nat.le_antisymm.
      - apply Nat.nlt_ge. intros Hlt.
        destruct (lookup_lt_is_Some_2 _ _ Hlt) as [y Hy].
        rewrite Hq in Hy by exact Hi. apply lookup_lt_Some in Hy. lia.
      - apply Nat.nlt_ge. intros Hlt.
        assert (Hnone : queue_of (length items mod n) m1 !! (length items / n - 1)%nat = None)
          by (apply lookup_ge_None_2; lia).
        rewrite Hq in Hnone by exact Hi. apply lookup_ge_None_1 in Hnone. nia. }
    destruct x as [xfd xfl]. cbn [new_conn_fd item_event_flags].
    destruct (decide (i = (length items mod n)%nat)) as [Hi0|Hi0].
    + specialize (Hqlen Hi0).
      destruct (decide (i = (length items mod n)%nat /\ j = (length items / n)%nat))
        as [[_ ->]|Hne].
      * rewrite <- Hqlen. apply list_lookup_middle. reflexivity.
      * assert (j <> length (queue_of i m1)) by (rewrite Hqlen; tauto).
        destruct (decide (j < length (queue_of i m1))%nat).
        -- rewrite lookup_app_l by lia. by apply Hq.
        -- rewrite lookup_ge_None_2 by (rewrite length_app; cbn; lia).
           rewrite <- Hq by exact Hi. symmetry. apply lookup_ge_None_2. lia.
    + destruct (decide _) as [[? _]|_]; [contradiction|]. by apply Hq.
Qed.

End RoundRobin.

(** C8. An acceptor with [n > 0] workers that starts idle (counter 0,
    empty queues) and dispatches a sequence of accepted descriptors puts
    the [k]-th of them (counting from 0) on the queue of worker
    [k mod n], and the queue of worker [i] is exactly the items at
    positions [i], [i + n], [i + 2n], ... in accept order. With two
    workers and four connections the descriptors go to workers
    0, 1, 0, 1. *)
Theorem DispatchConnection_round_robin (m : LibeventMasterThread)
    (items : list NewConnQueueItem) (w : World) :
  idle_master m ->
  0 < num_threads_ m ->
  (forall k it, items !! k = Some it ->
     queue_of (k mod Z.to_nat (num_threads_ m)) (fst (dispatch_all items m w))
       !! (k / Z.to_nat (num_threads_ m))%nat = Some it) /\
  (forall i j, (i < Z.to_nat (num_threads_ m))%nat ->
     queue_of i (fst (dispatch_all items m w)) !! j
     = items !! (j * Z.to_nat (num_threads_ m) + i)%nat) /\
  (map new_conn_fd (queue_of 0 (fst (dispatch_all demo_accepts demo_master demo_world)))
     = [10; 12] /\
   map new_conn_fd (queue_of 1 (fst (dispatch_all demo_accepts demo_master demo_world)))
     = [11; 13]).
Proof.
  intros Hidle Hpos.
  set (n := Z.to_nat (num_threads_ m)).
  assert (Hn : (0 < n)%nat) by (unfold n; lia).
  assert (Hnum : num_threads_ m = Z.of_nat n) by (unfold n; lia).
  destruct (dispatch_all_queues n Hn items m w Hidle Hnum) as (_ & _ & _ & Hq).
  split; [|split; [exact Hq | split; reflexivity]].
  intros k it Hk.
  rewrite Hq by (apply Nat.mod_upper_bound; lia).
  rewrite <- Hk. f_equal. pose proof (Nat.div_mod_eq k n). lia.
Qed.

Lemma DispatchConnection_round_robin_witness :
  (forall k it, demo_accepts !! k = Some it ->
     queue_of (k mod Z.to_nat (num_threads_ demo_master))
              (fst (dispatch_all demo_accepts demo_master demo_world))
       !! (k / Z.to_nat (num_threads_ demo_master))%nat = Some it) /\
  (forall i j, (i < Z.to_nat (num_threads_ demo_master))%nat ->
     queue_of i (fst (dispatch_all demo_accepts demo_master demo_world)) !! j
     = demo_accepts !! (j * Z.to_nat (num_threads_ demo_master) + i)%nat) /\
  (map new_conn_fd (queue_of 0 (fst (dispatch_all demo_accepts demo_master demo_world)))
     = [10; 12] /\
   map new_conn_fd (queue_of 1 (fst (dispatch_all demo_accepts demo_master demo_world)))
     = [11; 13]).
Proof.
  apply (DispatchConnection_round_robin demo_master demo_accepts demo_world).
  - unfold idle_master. cbn. split; [reflexivity|]. split; [reflexivity|].
    repeat constructor.
  - cbn. lia.
Defined.

(** ** The buffers of a connection under its operations *)

Lemma sys_read_Received fd count w data w' :
  sys_read fd count w = (Received data, w') ->
  0 <= count -> Z.of_nat (length data) <= count.
Proof.
  unfold sys_read. destruct (w_fds w !! fd) as [f|]; [|discriminate].
  destruct (fd_rd f) as [|[b bs| |e] rest]; try discriminate.
  - intros [= <- _] Hc. rewrite length_take. lia.
  - intros [= <- _] Hc. cbn. lia.
Qed.

Lemma flush_loop_wf fuel : forall c w,
  buffers_wf c -> buffers_wf (snd (fst (flush_loop fuel c w))).
Proof.
  induction fuel as [|fuel IH]; intros c w [Hr Hw]; cbn [flush_loop];
    destruct (Z.ltb_spec (buf_ptr (wbuf c)) (buf_size (wbuf c))) as [Hlt|Hge];
    try (split; [exact Hr | by apply Buffer_wf_Reset]); try (by split).
  unfold bind.
  destruct (sys_write (sock_fd c) (pending (wbuf c)) w) as [[n|e] w1] eqn:Hsw.
  - apply sys_write_Transferred in Hsw as (Hn & _ & _).
    rewrite (pending_length _ Hw) in Hn.
    apply IH. split; [exact Hr|]. cbn [set_wbuf wbuf].
    apply Buffer_wf_consume; [exact Hw | lia].
  - destruct (decide (e = EAGAIN)); by split.
Qed.

Lemma buffer_packet_wf pkt c w :
  buffers_wf c -> Z.of_nat (length pkt) <= SOCKET_BUFFER_SIZE ->
  buffers_wf (snd (fst (buffer_packet pkt c w))).
Proof.
  intros [Hr Hw] Hsize. unfold buffer_packet, GetMaxSize.
  destruct (Z.leb_spec (Z.of_nat (length pkt)) (SOCKET_BUFFER_SIZE - buf_size (wbuf c)))
    as [Hfit|Hnofit].
  - split; [exact Hr|]. cbn [fst snd ret set_wbuf wbuf].
    apply append_spec; [exact Hw | lia].
  - unfold bind. pose proof (flush_loop_wf (Z.to_nat (remaining (wbuf c))) c w
                               (conj Hr Hw)) as Hf.
    destruct (FlushWriteBuffer c w) as [[ok c1] w1] eqn:Hflush.
    unfold FlushWriteBuffer in Hflush. rewrite Hflush in Hf. cbn [fst snd] in Hf.
    destruct ok; [|exact Hf].
    apply FlushWriteBuffer_success in Hflush as [_ ->]; [|exact Hw].
    split; [exact Hr|]. cbn [fst snd ret set_wbuf wbuf].
    apply append_spec; [by apply Buffer_wf_Reset | cbn; lia].
Qed.

Lemma buffer_chunks_wf cs : forall c w,
  buffers_wf c ->
  Forall (fun ch => Z.of_nat (length ch) <= SOCKET_BUFFER_SIZE) cs ->
  buffers_wf (snd (fst (buffer_chunks cs c w))).
Proof.
  induction cs as [|ch rest IH]; intros c w Hwf Hall; cbn [buffer_chunks]; [exact Hwf|].
  apply Forall_cons in Hall as [Hch Hrest]. unfold bind.
  pose proof (buffer_packet_wf ch c w Hwf Hch) as Hwf1.
  destruct (buffer_packet ch c w) as [[ok c1] w1]. cbn [fst snd] in Hwf1.
  destruct ok; [by apply IH | exact Hwf1].
Qed.

Lemma BufferWriteBytes_wf p len type c w :
  buffers_wf c -> buffers_wf (snd (fst (BufferWriteBytes p len type c w))).
Proof.
  intros Hwf. unfold BufferWriteBytes, GetMaxSize.
  destruct (Z.leb_spec (5 + len) SOCKET_BUFFER_SIZE) as [Hfit|Hbig].
  - apply buffer_packet_wf; [exact Hwf|].
    unfold frame. rewrite length_app, packet_header_length, length_take.
    unfold SOCKET_BUFFER_SIZE in *. lia.
  - unfold bind.
    pose proof (flush_loop_wf (Z.to_nat (remaining (wbuf c))) c w Hwf) as Hf.
    fold (FlushWriteBuffer c w) in Hf.
    destruct (FlushWriteBuffer c w) as [[ok c1] w1]. cbn [fst snd] in Hf.
    destruct ok; [|exact Hf].
    apply buffer_chunks_wf; [exact Hf|].
    constructor.
    + rewrite packet_header_length. unfold SOCKET_BUFFER_SIZE. lia.
    + eapply Forall_impl; [apply chunks_bounded|].
      cbn. intros ch Hlen. unfold SOCKET_BUFFER_SIZE in *. lia.
Qed.

Lemma RefillReadBuffer_wf c w :
  buffers_wf c -> buffers_wf (snd (fst (RefillReadBuffer c w))).
Proof.
  intros [Hr Hw]. unfold RefillReadBuffer, GetMaxSize, bind.
  destruct (sys_read (sock_fd c) (SOCKET_BUFFER_SIZE - buf_size (rbuf c)) w)
    as [[data|e] w1] eqn:Hsr.
  - apply sys_read_Received in Hsr; [|destruct Hr as [(_ & _ & ?) _]; lia].
    destruct data as [|b bs]; [by split|].
    split; [|exact Hw]. cbn [fst snd ret set_rbuf rbuf].
    apply append_spec; [exact Hr | lia].
  - destruct (decide (e = EAGAIN)); by split.
Qed.

Lemma read_loop_wf fuel bytes : forall c w,
  0 <= bytes -> buffers_wf c -> buffers_wf (snd (fst (read_loop fuel bytes c w))).
Proof.
  induction fuel as [|fuel IH]; intros c w Hb [Hr Hw]; cbn [read_loop];
    destruct (Z.leb_spec bytes (remaining (rbuf c))) as [Hle|Hgt];
    try (split; [|exact Hw]; cbn [fst snd ret set_rbuf rbuf];
         apply Buffer_wf_consume; [exact Hr|];
         rewrite (remaining_inv _ (proj1 Hr)) in Hle; lia);
    try (by split).
  unfold bind. pose proof (RefillReadBuffer_wf c w (conj Hr Hw)) as Hf.
  destruct (RefillReadBuffer c w) as [[ok c1] w1]. cbn [fst snd] in Hf.
  destruct ok; [by apply IH | exact Hf].
Qed.

Lemma run_ConnOp_wf op c w :
  ConnOp_args_ok op -> buffers_wf c -> buffers_wf (fst (run_ConnOp op c w)).
Proof.
  destruct op; cbn [ConnOp_args_ok run_ConnOp]; intros Hop Hwf; unfold bind.
  - pose proof (RefillReadBuffer_wf c w Hwf) as H.
    destruct (RefillReadBuffer c w) as [[ok c1] w1]. exact H.
  - pose proof (read_loop_wf (Z.to_nat bytes) bytes c w Hop Hwf) as H.
    unfold ReadBytes. destruct (read_loop (Z.to_nat bytes) bytes c w) as [[ok c1] w1].
    exact H.
  - pose proof (BufferWriteBytes_wf pkt_buf len type c w Hwf) as H.
    destruct (BufferWriteBytes pkt_buf len type c w) as [[ok c1] w1]. exact H.
  - pose proof (flush_loop_wf (Z.to_nat (remaining (wbuf c))) c w Hwf) as H.
    fold (FlushWriteBuffer c w) in H.
    destruct (FlushWriteBuffer c w) as [[ok c1] w1]. exact H.
  - unfold CloseSocket, bind.
    destruct (sys_close (sock_fd c) w) as [r1 w1].
    destruct (event_del (event c) w1) as [r2 w2]. exact Hwf.
  - rewrite Reset_eq. destruct Hwf as [Hr Hw].
    split; cbn [fst rbuf wbuf]; auto with buffers.
Qed.

(** C1. Every buffer a program can hold, that is a freshly constructed
    one or the result of [Reset], [consume] or [append] (the latter two
    called within their contracts) on such a buffer, satisfies
    [0 <= buf_ptr <= buf_size <= SOCKET_BUFFER_SIZE]. In particular both
    buffers of a connection satisfy it after the constructor and after
    [Reset], and every operation of a connection keeps it for both. *)
Theorem Buffer_invariant_holds (b : Buffer) :
  Buffer_reachable b ->
  Buffer_inv b /\
  (forall this raw fd fl t w,
      Buffer_inv (rbuf (fst (LibeventSocket_new this raw fd fl t w))) /\
      Buffer_inv (wbuf (fst (LibeventSocket_new this raw fd fl t w)))) /\
  (forall this fl t c w,
      Buffer_inv (rbuf (fst (Reset this fl t c w))) /\
      Buffer_inv (wbuf (fst (Reset this fl t c w)))) /\
  (forall op c w,
      ConnOp_args_ok op -> buffers_wf c -> buffers_wf (fst (run_ConnOp op c w))).
Proof.
  intros Hreach. split; [|split; [|split]].
  - induction Hreach as [raw | op b Hb IH Hpre].
    + apply Buffer_inv_new.
    + by apply Buffer_inv_run_BufferOp.
  - intros. rewrite LibeventSocket_new_eq. cbn [fst rbuf wbuf].
    split; auto with buffers.
  - intros. rewrite Reset_eq. cbn [fst rbuf wbuf].
    split; auto with buffers.
  - apply run_ConnOp_wf.
Qed.

Lemma Buffer_invariant_holds_witness :
  Buffer_inv (run_BufferOp (OpConsume 2)
                (run_BufferOp (OpAppend [104; 105; 33] 3) (Buffer_new zeroed_array)))
  /\ buffers_wf (fst (run_ConnOp (DoBufferWriteBytes hello 5 65) demo_conn demo_world)).
Proof.
  pose proof (Buffer_invariant_holds
                (run_BufferOp (OpConsume 2)
                   (run_BufferOp (OpAppend [104; 105; 33] 3) (Buffer_new zeroed_array)))
                (reach_op (OpConsume 2) _
                   (reach_op (OpAppend [104; 105; 33] 3) _ (reach_new zeroed_array)
                      ltac:(unfold BufferOp_pre, append_pre, SOCKET_BUFFER_SIZE;
                            cbn; lia))
                   ltac:(unfold BufferOp_pre, consume_pre; vm_compute;
                         split; discriminate)))
    as (Hb & _ & _ & Hops).
  split; [exact Hb|].
  apply Hops; [exact I|].
  split; [|exact demo_conn_wbuf_wf].
  split; [apply Buffer_inv_new|].
  unfold SockBuf_ok. cbn [rbuf demo_conn Buffer_new buf]. unfold zeroed_array.
  rewrite length_replicate. apply Z2Nat.id. unfold SOCKET_BUFFER_SIZE. lia.
Defined.

(** ** The flush loop stops on its own *)

(** The loop is bounded by the number of buffered bytes, since every
    successful [write] takes at least one; giving it more rounds changes
    nothing. *)
Lemma flush_loop_fuel fuel1 : forall fuel2 c w,
  Buffer_wf (wbuf c) ->
  (Z.to_nat (remaining (wbuf c)) <= fuel1)%nat ->
  (Z.to_nat (remaining (wbuf c)) <= fuel2)%nat ->
  flush_loop fuel1 c w = flush_loop fuel2 c w.
Proof.
  induction fuel1 as [|fuel1 IH]; intros [|fuel2] c w Hwf H1 H2; cbn [flush_loop];
    destruct (Z.ltb_spec (buf_ptr (wbuf c)) (buf_size (wbuf c))) as [Hlt|Hge];
    try reflexivity;
    try (rewrite (remaining_inv _ (proj1 Hwf)) in H1, H2; lia).
  rewrite (remaining_inv _ (proj1 Hwf)) in H1, H2.
  unfold bind.
  destruct (sys_write (sock_fd c) (pending (wbuf c)) w) as [[n|e] w1] eqn:Hsw;
    [|reflexivity].
  apply sys_write_Transferred in Hsw as (Hn & Hpos & _).
  rewrite (pending_length _ Hwf) in Hn.
  assert (1 <= n).
  { apply Hpos. intros Hnil. apply (f_equal length) in Hnil.
    rewrite (pending_length _ Hwf) in Hnil. cbn in Hnil. lia. }
  assert (Hwf' : Buffer_wf (consume n (wbuf c))) by (apply Buffer_wf_consume; [done|lia]).
  assert (Hrem : remaining (consume n (wbuf c)) = buf_size (wbuf c) - buf_ptr (wbuf c) - n).
  { rewrite (remaining_inv _ (proj1 Hwf')). unfold consume, size_t_wrap. cbn [buf_ptr buf_size].
    destruct Hwf as [(? & ? & ?) _]. unfold SOCKET_BUFFER_SIZE in *.
    rewrite Z.mod_small by lia. lia. }
  apply IH; cbn [set_wbuf wbuf]; [exact Hwf' | rewrite Hrem; lia | rewrite Hrem; lia].
Qed.

(** When the kernel takes all that is offered in one [write], the flush
    completes and leaves the buffer empty. *)
Lemma FlushWriteBuffer_completes c w f n rest :
  Buffer_wf (wbuf c) ->
  w_fds w !! sock_fd c = Some f ->
  fd_wr f = WrAccept n :: rest ->
  remaining (wbuf c) <= Z.pos n ->
  fst (fst (FlushWriteBuffer c w)) = true /\
  pending (wbuf (snd (fst (FlushWriteBuffer c w)))) = [].
Proof.
  intros Hwf Hf Hscript Hroom. rewrite (remaining_inv _ (proj1 Hwf)) in Hroom.
  unfold FlushWriteBuffer. rewrite (remaining_inv _ (proj1 Hwf)).
  destruct (Z.to_nat (buf_size (wbuf c) - buf_ptr (wbuf c))) as [|fuel] eqn:Hfuel;
    cbn [flush_loop];
    destruct (Z.ltb_spec (buf_ptr (wbuf c)) (buf_size (wbuf c))) as [Hlt|Hge];
    try (split; reflexivity); try lia.
  unfold bind, sys_write. rewrite Hf, Hscript.
  rewrite (pending_length _ Hwf), Z2Nat.id, Z.min_r by lia.
  set (c1 := set_wbuf _ c).
  assert (Hdone : buf_ptr (wbuf c1) = buf_size (wbuf c1)).
  { unfold c1, consume, size_t_wrap. cbn [set_wbuf wbuf buf_ptr buf_size].
    destruct Hwf as [(? & ? & ?) _]. unfold SOCKET_BUFFER_SIZE in *.
    rewrite Z.mod_small by lia. lia. }
  destruct fuel as [|fuel]; cbn [flush_loop]; rewrite Hdone, Z.ltb_irrefl;
    split; reflexivity.
Qed.

(** ** The read loop stops on its own *)

Lemma RefillReadBuffer_true c w c1 w1 :
  buffers_wf c ->
  RefillReadBuffer c w = ((true, c1), w1) ->
  buffers_wf c1 /\ remaining (rbuf c) + 1 <= remaining (rbuf c1).
Proof.
  intros Hwf Hr. pose proof (RefillReadBuffer_wf c w Hwf) as Hwf1.
  rewrite Hr in Hwf1. cbn [fst snd] in Hwf1. split; [exact Hwf1|].
  rewrite (remaining_inv _ (proj1 (proj1 Hwf))), (remaining_inv _ (proj1 (proj1 Hwf1))).
  destruct Hwf as [[(H0 & H1 & H2) Hlen] _].
  revert Hr. unfold RefillReadBuffer, GetMaxSize, bind.
  destruct (sys_read (sock_fd c) (SOCKET_BUFFER_SIZE - buf_size (rbuf c)) w)
    as [[[|b bs]|e] w2] eqn:Hsr; try discriminate.
  - apply sys_read_Received in Hsr; [|lia].
    intros [= <- _]. cbn [set_rbuf rbuf append buf_ptr buf_size]. unfold size_t_wrap.
    unfold SOCKET_BUFFER_SIZE in *. cbn [length] in *. rewrite Z.mod_small by lia. lia.
  - destruct (decide (e = EAGAIN)); discriminate.
Qed.

(** Every successful refill brings at least one byte, so the missing
    bytes bound the number of rounds; more rounds change nothing. *)
Lemma read_loop_fuel bytes fuel1 : forall fuel2 c w,
  buffers_wf c ->
  (Z.to_nat (bytes - remaining (rbuf c)) <= fuel1)%nat ->
  (Z.to_nat (bytes - remaining (rbuf c)) <= fuel2)%nat ->
  read_loop fuel1 bytes c w = read_loop fuel2 bytes c w.
Proof.
  induction fuel1 as [|fuel1 IH]; intros [|fuel2] c w Hwf H1 H2; cbn [read_loop];
    destruct (Z.leb_spec bytes (remaining (rbuf c))) as [Hle|Hgt];
    try reflexivity; try lia.
  unfold bind. destruct (RefillReadBuffer c w) as [[ok c1] w1] eqn:Hr.
  destruct ok; [|reflexivity].
  apply RefillReadBuffer_true in Hr as [Hwf1 Hgrow]; [|exact Hwf].
  apply IH; [exact Hwf1 | lia | lia].
Qed.

(** ** Worked examples *)

(** The end-to-end scenario of the design: one packet of type [0x41]
    with payload ["hello"], buffered and flushed on a fresh connection
    (the kernel takes 3 bytes, then the other 7). *)
Example hello_on_the_wire :
  let r1 := BufferWriteBytes hello 5 65 demo_conn demo_world in
  let r2 := FlushWriteBuffer (snd (fst r1)) (snd r1) in
  fst (fst r1) = true /\ fst (fst r2) = true /\
  sent 7 (snd r2) = [65; 0; 0; 0; 9; 104; 101; 108; 108; 111] /\
  fd_wr <$> (w_fds (snd r2) !! 7) = Some [].
Proof. vm_compute. repeat split. Qed.

(** The same flush against a kernel that takes 3 bytes and then has no
    room: the call returns false, the flag stays clear, and the 7 bytes
    not yet written are still buffered. *)
Example partial_flush_keeps_the_rest :
  let w := mkWorld {[ 7 := mkFileDesc 2 true false [] [WrAccept 3] [] ]} [] [] in
  let r1 := BufferWriteBytes hello 5 65 demo_conn w in
  let r2 := FlushWriteBuffer (snd (fst r1)) (snd r1) in
  fst (fst r2) = false /\
  is_disconnected (snd (fst r2)) = false /\
  sent 7 (snd r2) = [65; 0; 0] /\
  pending (wbuf (snd (fst r2))) = [0; 9; 104; 101; 108; 108; 111].
Proof. vm_compute. repeat split. Qed.

(** A payload of [SOCKET_BUFFER_SIZE - 4] bytes is one byte too long for
    the buffer: the header ([0x2000 = 8188 + 4]) and all but the last
    byte fill the buffer and are flushed, the last byte follows, and the
    wire carries the one packet. *)
Example oversize_payload_one_packet :
  let r1 := BufferWriteBytes big_payload (Z.of_nat (length big_payload)) 65
              demo_conn roomy_world in
  let r2 := FlushWriteBuffer (snd (fst r1)) (snd r1) in
  fst (fst r1) = true /\ fst (fst r2) = true /\
  sent 7 (snd r1) = take (Z.to_nat SOCKET_BUFFER_SIZE) (frame 65 big_payload) /\
  sent 7 (snd r2) = frame 65 big_payload /\
  take 5 (sent 7 (snd r2)) = [65; 0; 0; 32; 0].
Proof. vm_compute. repeat split. Qed.

(** On a descriptor that is not open the two option calls fail;
    [SetNonBlocking] logs the failure and [Init] goes on to register the
    event all the same. *)
Example Init_on_closed_descriptor :
  let r := LibeventSocket_new 500 demo_raw 9 2 demo_thread demo_world in
  w_fds (snd r) !! 9 = None /\
  w_log (snd r) = ["Failed to set non-blocking socket"] /\
  ev_fd <$> lookup_event (event (fst r)) (snd r) = Some 9.
Proof. vm_compute. repeat split. Qed.

(** A read that ends in a hard error sets the flag; a later [Reset]
    clears it. *)
Example disconnect_then_Reset :
  let w := mkWorld {[ 7 := mkFileDesc 2 true false [] [] [RdFail ECONNRESET] ]} [] [] in
  disconnect_trace [DoReadBytes 4; DoFlushWriteBuffer; DoReset 500 2 demo_thread;
                    DoRefillReadBuffer] demo_conn w
  = [false; true; true; false; false].
Proof. vm_compute. reflexivity. Qed.

(** * Further properties of the code in the header *)

(** ** The socket-option helpers *)

(** [F_SETFL] with [flags | O_NONBLOCK] adds that one bit and keeps the
    others: [O_NONBLOCK] is among the bits the call may change. *)
Lemma setfl_adds_nonblock (s : Z) :
  Z.lor (Z.land s (Z.lnot SETFL_MASK)) (Z.land (Z.lor s O_NONBLOCK) SETFL_MASK)
  = Z.lor s O_NONBLOCK.
Proof.
  apply Z.bits_inj'. intros i Hi.
  rewrite !Z.lor_spec, !Z.land_spec, Z.lor_spec, Z.lnot_spec by exact Hi.
  change O_NONBLOCK with (2 ^ 11). rewrite Z.pow2_bits_eqb by lia.
  destruct (Z.eqb_spec 11 i) as [<-|Hne].
  - replace (Z.testbit SETFL_MASK 11) with true by reflexivity.
    destruct (Z.testbit s 11); reflexivity.
  - destruct (Z.testbit s i), (Z.testbit SETFL_MASK i); reflexivity.
Qed.

Lemma SetNonBlocking_open fd w f :
  w_fds w !! fd = Some f ->
  SetNonBlocking fd w =
  (tt, w_with_fds (<[fd := fd_with_status (Z.lor (fd_status f) O_NONBLOCK) f]> (w_fds w)) w).
Proof.
  intros Hf. unfold SetNonBlocking, bind, fcntl_GETFL, fcntl_SETFL, ret.
  rewrite Hf. cbn [w_fds]. rewrite Hf. cbn. rewrite setfl_adds_nonblock. reflexivity.
Qed.

Lemma SetNonBlocking_closed fd w :
  w_fds w !! fd = None ->
  SetNonBlocking fd w =
  (tt, w_with_log (w_log w ++ ["Failed to set non-blocking socket"]) w).
Proof.
  intros Hf. unfold SetNonBlocking, bind, fcntl_GETFL, fcntl_SETFL, LOG_ERROR.
  rewrite Hf. cbn [w_fds]. rewrite Hf. reflexivity.
Qed.

Lemma SetTCPNoDelay_open fd w f :
  w_fds w !! fd = Some f ->
  SetTCPNoDelay fd w =
  (tt, if fd_tcp f then w_with_fds (<[fd := fd_with_nodelay true f]> (w_fds w)) w else w).
Proof.
  intros Hf. unfold SetTCPNoDelay, bind, setsockopt_TCP_NODELAY, ret.
  rewrite Hf. destruct (fd_tcp f); reflexivity.
Qed.

Lemma SetTCPNoDelay_closed fd w :
  w_fds w !! fd = None -> SetTCPNoDelay fd w = (tt, w).
Proof.
  intros Hf. unfold SetTCPNoDelay, bind, setsockopt_TCP_NODELAY, ret.
  rewrite Hf. reflexivity.
Qed.

Lemma prepared_fds_eq fd w :
  prepared_fds fd w =
  match w_fds w !! fd with
  | Some f => <[fd := prepared_file f]> (w_fds w)
  | None => w_fds w
  end.
Proof.
  unfold prepared_fds. destruct (w_fds w !! fd) as [f|] eqn:Hf.
  - rewrite (SetNonBlocking_open fd w f Hf). cbn [snd].
    erewrite SetTCPNoDelay_open
      by (unfold w_with_fds; cbn [w_fds]; apply lookup_insert_eq).
    unfold prepared_file, fd_with_status, fd_with_nodelay.
    cbn [fd_tcp fd_status fd_nodelay fd_sent fd_wr fd_rd].
    destruct (fd_tcp f); cbn [snd w_with_fds w_fds].
    + apply insert_insert_eq.
    + reflexivity.
  - rewrite (SetNonBlocking_closed fd w Hf). cbn [snd].
    rewrite SetTCPNoDelay_closed by exact Hf. reflexivity.
Qed.

Lemma prepared_log_eq fd w :
  prepared_log fd w =
  match w_fds w !! fd with
  | Some _ => w_log w
  | None => w_log w ++ ["Failed to set non-blocking socket"]
  end.
Proof.
  unfold prepared_log. destruct (w_fds w !! fd) as [f|] eqn:Hf.
  - rewrite (SetNonBlocking_open fd w f Hf). cbn [snd].
    erewrite SetTCPNoDelay_open
      by (unfold w_with_fds; cbn [w_fds]; apply lookup_insert_eq).
    cbn [fd_with_status fd_tcp]. destruct (fd_tcp f); reflexivity.
  - rewrite (SetNonBlocking_closed fd w Hf). cbn [snd].
    rewrite SetTCPNoDelay_closed by exact Hf. reflexivity.
Qed.

Lemma prepared_file_idem f : prepared_file (prepared_file f) = prepared_file f.
Proof.
  unfold prepared_file. cbn [fd_status fd_tcp fd_nodelay fd_sent fd_wr fd_rd].
  rewrite <- Z.lor_assoc, Z.lor_diag. destruct (fd_tcp f); reflexivity.
Qed.

Lemma prepared_fds_idem fd w w1 :
  w_fds w1 = prepared_fds fd w -> prepared_fds fd w1 = prepared_fds fd w.
Proof.
  intros H1. rewrite (prepared_fds_eq fd w1), H1, (prepared_fds_eq fd w).
  destruct (w_fds w !! fd) as [f|] eqn:Hf.
  - rewrite lookup_insert_eq, prepared_file_idem. apply insert_insert_eq.
  - rewrite Hf. reflexivity.
Qed.

(** X1. On an open TCP socket [SetNonBlocking] adds [O_NONBLOCK] (bit
    11) to the status flags and keeps every other flag bit; it leaves
    the socket's options and traffic, every other descriptor, the
    events and the log as they were, and running it again changes
    nothing. *)
Theorem SetNonBlocking_adds_one_flag (fd : Z) (w : World) (f : FileDesc) :
  w_fds w !! fd = Some f ->
  fd_tcp f = true ->
  (exists f',
      w_fds (snd (SetNonBlocking fd w)) !! fd = Some f' /\
      (forall i, Z.testbit (fd_status f') i = Z.testbit (fd_status f) i || (i =? 11)) /\
      fd_nodelay f' = fd_nodelay f /\ fd_traffic f' = fd_traffic f) /\
  (forall fd', fd' <> fd ->
      w_fds (snd (SetNonBlocking fd w)) !! fd' = w_fds w !! fd') /\
  w_events (snd (SetNonBlocking fd w)) = w_events w /\
  w_log (snd (SetNonBlocking fd w)) = w_log w /\
  SetNonBlocking fd (snd (SetNonBlocking fd w)) = (tt, snd (SetNonBlocking fd w)).
Proof.
  intros Hf _. rewrite (SetNonBlocking_open fd w f Hf). cbn [snd w_with_fds w_fds w_events w_log].
  split; [|split; [|split; [|split]]]; try reflexivity.
  - eexists. split; [apply lookup_insert_eq|]. cbn [fd_with_status fd_status fd_nodelay].
    split; [|split; reflexivity].
    intros i. rewrite Z.lor_spec. f_equal.
    change O_NONBLOCK with (2 ^ 11). rewrite Z.pow2_bits_eqb by lia. apply Z.eqb_sym.
  - intros fd' Hne. by apply lookup_insert_ne.
  - erewrite SetNonBlocking_open by apply lookup_insert_eq.
    unfold w_with_fds. cbn [w_fds w_events w_log fd_with_status fd_status fd_tcp
                             fd_nodelay fd_sent fd_wr fd_rd].
    rewrite <- Z.lor_assoc, Z.lor_diag, insert_insert_eq. reflexivity.
Qed.

Lemma SetNonBlocking_adds_one_flag_witness :
  (exists f',
      w_fds (snd (SetNonBlocking 7 demo_world)) !! 7 = Some f' /\
      (forall i, Z.testbit (fd_status f') i = Z.testbit (fd_status demo_file) i || (i =? 11)) /\
      fd_nodelay f' = fd_nodelay demo_file /\ fd_traffic f' = fd_traffic demo_file) /\
  (forall fd', fd' <> 7 ->
      w_fds (snd (SetNonBlocking 7 demo_world)) !! fd' = w_fds demo_world !! fd') /\
  w_events (snd (SetNonBlocking 7 demo_world)) = w_events demo_world /\
  w_log (snd (SetNonBlocking 7 demo_world)) = w_log demo_world /\
  SetNonBlocking 7 (snd (SetNonBlocking 7 demo_world)) = (tt, snd (SetNonBlocking 7 demo_world)).
Proof.
  apply (SetNonBlocking_adds_one_flag 7 demo_world demo_file); reflexivity.
Defined.

(** X2. On a descriptor that is not open [SetNonBlocking] writes its
    error line, once, and changes nothing else. Whatever the descriptor,
    it logs at most that one line, opens or closes no descriptor and
    touches no event. *)
Theorem SetNonBlocking_logs_when_not_open (fd : Z) (w : World) :
  (w_fds w !! fd = None ->
   snd (SetNonBlocking fd w)
   = w_with_log (w_log w ++ ["Failed to set non-blocking socket"]) w) /\
  (w_log (snd (SetNonBlocking fd w)) = w_log w \/
   w_log (snd (SetNonBlocking fd w)) = w_log w ++ ["Failed to set non-blocking socket"]) /\
  dom (w_fds (snd (SetNonBlocking fd w))) = dom (w_fds w) /\
  w_events (snd (SetNonBlocking fd w)) = w_events w.
Proof.
  destruct (w_fds w !! fd) as [f|] eqn:Hf.
  - rewrite (SetNonBlocking_open fd w f Hf). cbn [snd w_with_fds w_fds w_events w_log].
    split; [discriminate|]. split; [by left|]. split; [|reflexivity].
    apply dom_insert_lookup_L. by eexists.
  - rewrite (SetNonBlocking_closed fd w Hf). cbn [snd w_with_log w_fds w_events w_log].
    split; [reflexivity|]. split; [by right|]. split; reflexivity.
Qed.

Lemma SetNonBlocking_logs_when_not_open_witness :
  snd (SetNonBlocking 9 demo_world)
  = w_with_log (w_log demo_world ++ ["Failed to set non-blocking socket"]) demo_world.
Proof. apply (SetNonBlocking_logs_when_not_open 9 demo_world). reflexivity. Defined.

(** X3. [SetTCPNoDelay] never logs, whatever [setsockopt] answers: it
    turns [TCP_NODELAY] on when the descriptor is an open TCP socket,
    and otherwise (not open, or not TCP) leaves the whole environment
    as it was. It never changes a status flag or any traffic. *)
Theorem SetTCPNoDelay_fails_silently (fd : Z) (w : World) :
  w_log (snd (SetTCPNoDelay fd w)) = w_log w /\
  w_events (snd (SetTCPNoDelay fd w)) = w_events w /\
  fd_nodelay <$> (w_fds (snd (SetTCPNoDelay fd w)) !! fd)
    = (fun f => fd_tcp f || fd_nodelay f) <$> (w_fds w !! fd) /\
  (forall fd', fd_status <$> (w_fds (snd (SetTCPNoDelay fd w)) !! fd')
               = fd_status <$> (w_fds w !! fd')) /\
  (forall fd', fd_traffic <$> (w_fds (snd (SetTCPNoDelay fd w)) !! fd')
               = fd_traffic <$> (w_fds w !! fd')) /\
  (fd_tcp <$> (w_fds w !! fd) <> Some true -> snd (SetTCPNoDelay fd w) = w).
Proof.
  destruct (w_fds w !! fd) as [f|] eqn:Hf.
  - rewrite (SetTCPNoDelay_open fd w f Hf). cbn [snd fmap option_fmap option_map].
    destruct (fd_tcp f) eqn:Htcp; cbn [w_with_fds w_fds w_events w_log orb].
    + split; [reflexivity|]. split; [reflexivity|].
      split; [by rewrite lookup_insert_eq|].
      split; [|split; [|intros H; by destruct H]];
        intros fd'; (destruct (decide (fd' = fd)) as [->|Hne];
          [rewrite lookup_insert_eq, Hf; reflexivity | by rewrite lookup_insert_ne]).
    + rewrite Hf. cbn. rewrite ?Htcp. repeat split; reflexivity.
  - rewrite (SetTCPNoDelay_closed fd w Hf). cbn [snd]. rewrite Hf. repeat split; reflexivity.
Qed.

Lemma SetTCPNoDelay_fails_silently_witness :
  snd (SetTCPNoDelay 9 demo_world) = demo_world.
Proof.
  apply (SetTCPNoDelay_fails_silently 9 demo_world). vm_compute. discriminate.
Defined.

(** ** Threads and connections *)

(** X4. Whenever the [LibeventThread] constructor returns an object,
    the object's event base is not null and is the one passed in, the
    thread id is the one passed in, and the environment is untouched;
    so a connection built on a constructed thread always registers its
    event in a non-null base. *)
Theorem constructed_thread_has_event_base (thread_id : Z) (base : ptr)
    (w w' : World) (t : LibeventThread) :
  LibeventThread_new thread_id base w = (Returned t, w') ->
  GetEventBase t <> nullptr /\
  t = mkLibeventThread thread_id base /\
  w' = w /\
  (forall this raw fd fl w0,
      ev_base <$> lookup_event (event (fst (LibeventSocket_new this raw fd fl t w0)))
                               (snd (LibeventSocket_new this raw fd fl t w0))
      = Some (GetEventBase t)).
Proof.
  unfold LibeventThread_new. cbn [libevent_base_].
  destruct (decide (base = nullptr)) as [He|Hne].
  - unfold bind, LOG_ERROR, ret. discriminate.
  - unfold ret. intros [= <- <-]. cbn [GetEventBase libevent_base_].
    repeat split; try assumption.
    intros. rewrite LibeventSocket_new_eq. cbn [fst snd event].
    rewrite (lookup_event_last w0). reflexivity.
Qed.

Lemma constructed_thread_has_event_base_witness :
  GetEventBase (mkLibeventThread 3 4096) <> nullptr /\
  mkLibeventThread 3 4096 = mkLibeventThread 3 4096 /\
  demo_world = demo_world /\
  (forall this raw fd fl w0,
      ev_base <$> lookup_event
                    (event (fst (LibeventSocket_new this raw fd fl (mkLibeventThread 3 4096) w0)))
                    (snd (LibeventSocket_new this raw fd fl (mkLibeventThread 3 4096) w0))
      = Some (GetEventBase (mkLibeventThread 3 4096))).
Proof.
  apply (constructed_thread_has_event_base 3 4096 demo_world demo_world). reflexivity.
Defined.

(** X5. [Reset] is construction in place: on any connection, whatever
    its flag, event handle, flags, thread, buffer counters and protocol
    handler were, it gives the same object and the same environment as
    the constructor run for the same descriptor in memory holding the
    two byte arrays of the old object; nothing else of the old state
    survives, and the constructor's result does not depend on the
    uninitialised flag and handle. *)
Theorem Reset_is_construction_in_place (this : ptr) (fl : Z) (t : LibeventThread)
    (c : LibeventSocket) (w : World) (d : bool) (e : ptr) :
  Reset this fl t c w =
  LibeventSocket_new this (mkRawMemory d e (buf (rbuf c)) (buf (wbuf c)))
    (sock_fd c) fl t w.
Proof. rewrite Reset_eq, LibeventSocket_new_eq. reflexivity. Qed.

(** X6. [Init] does no socket I/O and manages no descriptor: no
    descriptor is opened or closed, no descriptor's kind, bytes sent or
    pending kernel answers change, and every descriptor other than
    [sock_fd] is left exactly as it was. It also leaves the connection's
    descriptor number, both buffers and the protocol handler alone. *)
Theorem Init_does_no_io (this : ptr) (fl : Z) (t : LibeventThread)
    (c : LibeventSocket) (w : World) :
  (sock_fd (fst (Init this fl t c w)) = sock_fd c /\
   rbuf (fst (Init this fl t c w)) = rbuf c /\
   wbuf (fst (Init this fl t c w)) = wbuf c /\
   pkt_manager (fst (Init this fl t c w)) = pkt_manager c) /\
  dom (w_fds (snd (Init this fl t c w))) = dom (w_fds w) /\
  (forall fd', fd_traffic <$> (w_fds (snd (Init this fl t c w)) !! fd')
               = fd_traffic <$> (w_fds w !! fd')) /\
  (forall fd', fd' <> sock_fd c ->
      w_fds (snd (Init this fl t c w)) !! fd' = w_fds w !! fd').
Proof.
  rewrite Init_eq. cbn [fst snd sock_fd rbuf wbuf pkt_manager w_fds].
  split; [repeat split|]. rewrite prepared_fds_eq.
  destruct (w_fds w !! sock_fd c) as [f|] eqn:Hf; [|repeat split; reflexivity].
  split; [apply dom_insert_lookup_L; by eexists|]. split.
  - intros fd'. destruct (decide (fd' = sock_fd c)) as [->|Hne].
    + rewrite lookup_insert_eq, Hf. reflexivity.
    + by rewrite lookup_insert_ne.
  - intros fd' Hne. by apply lookup_insert_ne.
Qed.

(** X7. [Reset] throws away what the connection still held: output that
    was buffered and not yet flushed is never written (no descriptor's
    sent bytes change) and is no longer pending, unread input in the
    read buffer is no longer pending either, although the bytes of both
    arrays stay in memory. *)
Theorem Reset_drops_buffered_bytes (this : ptr) (fl : Z) (t : LibeventThread)
    (c : LibeventSocket) (w : World) :
  pending (wbuf (fst (Reset this fl t c w))) = [] /\
  pending (rbuf (fst (Reset this fl t c w))) = [] /\
  (forall fd, sent fd (snd (Reset this fl t c w)) = sent fd w) /\
  buf (wbuf (fst (Reset this fl t c w))) = buf (wbuf c) /\
  buf (rbuf (fst (Reset this fl t c w))) = buf (rbuf c).
Proof.
  rewrite Reset_eq. cbn [fst snd rbuf wbuf]. rewrite !pending_Reset.
  repeat split. intros fd. unfold sent. cbn [w_fds]. rewrite prepared_fds_eq.
  destruct (w_fds w !! sock_fd c) as [f|] eqn:Hf; [|reflexivity].
  destruct (decide (fd = sock_fd c)) as [->|Hne].
  - rewrite lookup_insert_eq, Hf. reflexivity.
  - by rewrite lookup_insert_ne.
Qed.

Lemma Resets_app this args1 : forall args2 c w,
  Resets this (args1 ++ args2) c w =
  Resets this args2 (fst (Resets this args1 c w)) (snd (Resets this args1 c w)).
Proof.
  induction args1 as [|[fl t] rest IH]; intros args2 c w; [reflexivity|].
  cbn [app Resets]. unfold bind. destruct (Reset this fl t c w) as [c1 w1]. apply IH.
Qed.

(** X8. After the constructor and any sequence of [Reset]s the event
    table is the old one followed by one pending [EventHandler]
    registration per call, in call order, each on the connection's
    descriptor, with the connection as argument, in the base of the
    thread given to that call; the connection holds the handle, flags
    and thread of the last call only. So a connection that moved between
    threads stays registered in the base of every thread it ever had. *)
Theorem event_table_after_Resets (this : ptr) (raw : RawMemory) (fd : Z) (fl : Z)
    (t : LibeventThread) (args : list (Z * LibeventThread)) (w : World) :
  w_events (snd (Resets this args (fst (LibeventSocket_new this raw fd fl t w))
                   (snd (LibeventSocket_new this raw fd fl t w))))
    = w_events w ++ map (registration this fd) ((fl, t) :: args) /\
  event (fst (Resets this args (fst (LibeventSocket_new this raw fd fl t w))
                (snd (LibeventSocket_new this raw fd fl t w))))
    = event_handle (length (w_events w) + length args) /\
  last ((fl, t) :: args)
    = Some (event_flags (fst (Resets this args (fst (LibeventSocket_new this raw fd fl t w))
                                (snd (LibeventSocket_new this raw fd fl t w)))),
            thread (fst (Resets this args (fst (LibeventSocket_new this raw fd fl t w))
                           (snd (LibeventSocket_new this raw fd fl t w))))) /\
  sock_fd (fst (Resets this args (fst (LibeventSocket_new this raw fd fl t w))
                  (snd (LibeventSocket_new this raw fd fl t w)))) = fd.
Proof.
  induction args as [|[fl' t'] args IH] using rev_ind.
  - cbn [Resets ret fst snd]. rewrite LibeventSocket_new_eq.
    cbn [fst snd w_events event event_flags thread sock_fd map length last].
    rewrite Nat.add_0_r. repeat split.
  - rewrite Resets_app. destruct IH as (Hev & Hh & Hlast & Hfd).
    destruct (Resets this args _ _) as [cn wn]. cbn [fst snd] in *.
    cbn [Resets]. unfold bind. rewrite Reset_eq. cbn [ret fst snd w_events event
      event_flags thread sock_fd].
    rewrite Hev, Hfd. split; [|split; [|split]].
    + rewrite <- app_assoc. f_equal. cbn [map]. rewrite map_app. reflexivity.
    + f_equal. rewrite !length_app. cbn [length map]. rewrite length_map. lia.
    + rewrite app_comm_cons. apply last_snoc.
    + reflexivity.
Qed.

(** X9. On a descriptor that is not open [Init] still goes through: the
    descriptor table is unchanged, the log gains exactly the one line of
    [SetNonBlocking], an event is created all the same for the
    descriptor, with the given flags, the thread's base, [EventHandler]
    and the connection, and its handle is stored; the connection is left
    marked as connected. The caller is told nothing. *)
Theorem Init_on_closed_descriptor_goes_through (this : ptr) (fl : Z)
    (t : LibeventThread) (c : LibeventSocket) (w : World) :
  w_fds w !! sock_fd c = None ->
  w_fds (snd (Init this fl t c w)) = w_fds w /\
  w_log (snd (Init this fl t c w)) = w_log w ++ ["Failed to set non-blocking socket"] /\
  (exists e,
      lookup_event (event (fst (Init this fl t c w))) (snd (Init this fl t c w)) = Some e /\
      ev_fd e = sock_fd c /\ ev_events e = fl /\ ev_base e = GetEventBase t /\
      ev_callback e = EventHandler /\ ev_arg e = this) /\
  lookup_event (event (fst (Init this fl t c w))) w = None /\
  is_disconnected (fst (Init this fl t c w)) = false.
Proof.
  intros Hf. rewrite Init_eq. cbn [fst snd w_fds w_log event is_disconnected].
  rewrite prepared_fds_eq, prepared_log_eq, Hf.
  split; [reflexivity|]. split; [reflexivity|]. split; [|split; [|reflexivity]].
  - eexists. split; [apply (lookup_event_last w)|]. repeat split.
  - apply lookup_event_fresh.
Qed.

Lemma Init_on_closed_descriptor_goes_through_witness :
  w_fds (snd (Init 500 2 demo_thread stray_conn demo_world)) = w_fds demo_world /\
  w_log (snd (Init 500 2 demo_thread stray_conn demo_world))
    = w_log demo_world ++ ["Failed to set non-blocking socket"] /\
  (exists e,
      lookup_event (event (fst (Init 500 2 demo_thread stray_conn demo_world)))
                   (snd (Init 500 2 demo_thread stray_conn demo_world)) = Some e /\
      ev_fd e = sock_fd stray_conn /\ ev_events e = 2 /\
      ev_base e = GetEventBase demo_thread /\
      ev_callback e = EventHandler /\ ev_arg e = 500) /\
  lookup_event (event (fst (Init 500 2 demo_thread stray_conn demo_world))) demo_world
    = None /\
  is_disconnected (fst (Init 500 2 demo_thread stray_conn demo_world)) = false.
Proof.
  apply (Init_on_closed_descriptor_goes_through 500 2 demo_thread stray_conn demo_world).
  reflexivity.
Defined.

(** X10. Resetting a connection again changes no socket option
    further: whatever the arguments of the two calls, the descriptor
    table after a second [Reset] is the one the first [Reset] left, and
    likewise for a [Reset] after the constructor. *)
Theorem Reset_twice_same_descriptors (this this' : ptr) (fl fl' : Z)
    (t t' : LibeventThread) (raw : RawMemory) (c : LibeventSocket) (w : World) :
  w_fds (snd (Reset this' fl' t' (fst (Reset this fl t c w)) (snd (Reset this fl t c w))))
    = w_fds (snd (Reset this fl t c w)) /\
  w_fds (snd (Reset this' fl' t' (fst (LibeventSocket_new this raw (sock_fd c) fl t w))
                (snd (LibeventSocket_new this raw (sock_fd c) fl t w))))
    = w_fds (snd (LibeventSocket_new this raw (sock_fd c) fl t w)).
Proof.
  rewrite LibeventSocket_new_eq, !Reset_eq. cbn [fst snd sock_fd w_fds].
  split; apply prepared_fds_idem; reflexivity.
Qed.
